(** * librdns private definitions ([contrib/librdns/dns_private.h])

  A shallow embedding of the data model declared in [dns_private.h]:
  the built-in limits, the bit-field DNS header, the request life-cycle
  states, the response-code and record-type tables, and the per-channel
  TCP framing and request-index structures, together with the
  properties the resolver's specification states about them. *)

From Stdlib Require Import ZArith List Lia Bool String.
From stdpp Require Import base option list gmap.

Local Open Scope Z_scope.

(** ** Built-in defaults and limits (dns_private.h, lines 35-46) *)

Module Limits.

(** [static const int dns_port = 53;] *)
Definition dns_port : Z := 53.
(** [static const int default_io_cnt = 8;] *)
Definition default_io_cnt : Z := 8.
(** [static const int default_tcp_io_cnt = 1;] *)
Definition default_tcp_io_cnt : Z := 1.
(** [#define UDP_PACKET_SIZE (4096)] *)
Definition UDP_PACKET_SIZE : Z := 4096.
(** [#define DNS_COMPRESSION_BITS 0xC0] *)
Definition DNS_COMPRESSION_BITS : Z := 0xC0.
(** [#define DNS_D_MAXLABEL 63] and [#define DNS_D_MAXNAME 253],
    both commented "+ 1 '\0'" in the header. *)
Definition DNS_D_MAXLABEL : Z := 63.
Definition DNS_D_MAXNAME : Z := 253.

(** A server record as [struct rdns_server] keeps it, reduced to the
    numeric configuration the defaults fill in. *)
Record rdns_server := {
  port : Z;
  io_cnt : Z;
  tcp_io_cnt : Z
}.

(** The server obtained when every field takes the header's default. *)
Definition default_server : rdns_server :=
  {| port := dns_port; io_cnt := default_io_cnt;
     tcp_io_cnt := default_tcp_io_cnt |}.

(** A label of [n] bytes and a name of [n] bytes are within the limits
    (the terminating byte is counted apart, as the comments say). *)
Definition label_ok (n : Z) : bool := (0 <=? n) && (n <=? DNS_D_MAXLABEL).
Definition name_ok (n : Z) : bool := (0 <=? n) && (n <=? DNS_D_MAXNAME).

End Limits.

(** ** Request life-cycle states (dns_private.h, lines 98-107) *)

Module ReqState.

(** [enum rdns_request_state], in declaration order. *)
Inductive rdns_request_state :=
| RDNS_REQUEST_NEW
| RDNS_REQUEST_REGISTERED
| RDNS_REQUEST_WAIT_SEND
| RDNS_REQUEST_WAIT_REPLY
| RDNS_REQUEST_REPLIED
| RDNS_REQUEST_FAKE
| RDNS_REQUEST_ERROR
| RDNS_REQUEST_TCP.

(** The enumerators' integer values: [NEW = 0], [REGISTERED = 1] are
    written out, the others count on from there. *)
Definition state_value (s : rdns_request_state) : Z :=
  match s with
  | RDNS_REQUEST_NEW => 0
  | RDNS_REQUEST_REGISTERED => 1
  | RDNS_REQUEST_WAIT_SEND => 2
  | RDNS_REQUEST_WAIT_REPLY => 3
  | RDNS_REQUEST_REPLIED => 4
  | RDNS_REQUEST_FAKE => 5
  | RDNS_REQUEST_ERROR => 6
  | RDNS_REQUEST_TCP => 7
  end.

(** Reading an integer back as a state; [None] outside the enumeration. *)
Definition state_of_value (v : Z) : option rdns_request_state :=
  match v with
  | 0 => Some RDNS_REQUEST_NEW
  | 1 => Some RDNS_REQUEST_REGISTERED
  | 2 => Some RDNS_REQUEST_WAIT_SEND
  | 3 => Some RDNS_REQUEST_WAIT_REPLY
  | 4 => Some RDNS_REQUEST_REPLIED
  | 5 => Some RDNS_REQUEST_FAKE
  | 6 => Some RDNS_REQUEST_ERROR
  | 7 => Some RDNS_REQUEST_TCP
  | _ => None
  end.

Definition all_states : list rdns_request_state :=
  [RDNS_REQUEST_NEW; RDNS_REQUEST_REGISTERED; RDNS_REQUEST_WAIT_SEND;
   RDNS_REQUEST_WAIT_REPLY; RDNS_REQUEST_REPLIED; RDNS_REQUEST_FAKE;
   RDNS_REQUEST_ERROR; RDNS_REQUEST_TCP].

#[global] Instance rdns_request_state_eq_dec : EqDecision rdns_request_state.
Proof. solve_decision. Defined.

(** The two terminal states of the life cycle. *)
Definition is_terminal (s : rdns_request_state) : bool :=
  match s with
  | RDNS_REQUEST_REPLIED | RDNS_REQUEST_ERROR => true
  | _ => false
  end.

End ReqState.

(** ** The bit-field DNS header (dns_private.h, lines 48-81) *)

Module Header.

(** [BYTE_ORDER == BIG_ENDIAN] selects the first declaration order, every
    other host the second one. *)
Inductive byte_order := BIG_ENDIAN | LITTLE_ENDIAN.

(** [struct dns_header]: every member is an [unsigned int] bit-field. *)
Record dns_header := {
  qid : Z;
  qr : Z; opcode : Z; aa : Z; tc : Z; rd : Z;
  ra : Z; cd : Z; ad : Z; z : Z; rcode : Z;
  qdcount : Z; ancount : Z; nscount : Z; arcount : Z
}.

Inductive field :=
| F_qid
| F_qr | F_opcode | F_aa | F_tc | F_rd
| F_ra | F_cd | F_ad | F_z | F_rcode
| F_qdcount | F_ancount | F_nscount | F_arcount.

(** Declared widths ([name : width]). *)
Definition width (f : field) : Z :=
  match f with
  | F_qid => 16
  | F_qr => 1 | F_opcode => 4 | F_aa => 1 | F_tc => 1 | F_rd => 1
  | F_ra => 1 | F_cd => 1 | F_ad => 1 | F_z => 1 | F_rcode => 4
  | F_qdcount => 16 | F_ancount => 16 | F_nscount => 16 | F_arcount => 16
  end.

Definition get (h : dns_header) (f : field) : Z :=
  match f with
  | F_qid => qid h
  | F_qr => qr h | F_opcode => opcode h | F_aa => aa h
  | F_tc => tc h | F_rd => rd h
  | F_ra => ra h | F_cd => cd h | F_ad => ad h | F_z => z h
  | F_rcode => rcode h
  | F_qdcount => qdcount h | F_ancount => ancount h
  | F_nscount => nscount h | F_arcount => arcount h
  end.

(** The members in declaration order, as the preprocessor leaves them
    for each byte order. *)
Definition members (bo : byte_order) : list field :=
  [F_qid] ++
  match bo with
  | BIG_ENDIAN =>
      [F_qr; F_opcode; F_aa; F_tc; F_rd;
       F_ra; F_cd; F_ad; F_z; F_rcode]
  | LITTLE_ENDIAN =>
      [F_rd; F_tc; F_aa; F_opcode; F_qr;
       F_rcode; F_z; F_ad; F_cd; F_ra]
  end ++
  [F_qdcount; F_ancount; F_nscount; F_arcount].

(** *** Bit-field allocation

    The conditional declaration order is written for the usual C ABI
    rule: [unsigned int] bit-fields are packed in declaration order into
    32-bit storage units, a member that does not fit in what is left of
    the unit starts the next one; a big-endian host fills a unit from its
    most significant bit, a little-endian host from its least significant
    bit; a unit lies in memory in host byte order. *)

Definition unit_bits : Z := 32.

(** A placed member: storage unit number, bit offset in allocation
    order inside the unit, and the member. *)
Record slot := { s_unit : Z; s_off : Z; s_field : field }.

Fixpoint allocate (u off : Z) (fs : list field) : list slot :=
  match fs with
  | [] => []
  | f :: fs' =>
      if off + width f <=? unit_bits
      then {| s_unit := u; s_off := off; s_field := f |}
             :: allocate u (off + width f) fs'
      else {| s_unit := u + 1; s_off := 0; s_field := f |}
             :: allocate (u + 1) (width f) fs'
  end.

Definition layout (bo : byte_order) : list slot := allocate 0 0 (members bo).

(** Number of storage units, hence [sizeof (struct dns_header)] in bytes. *)
Definition unit_count (bo : byte_order) : Z :=
  fold_right (fun s acc => Z.max (s_unit s + 1) acc) 0 (layout bo).
Definition sizeof_header (bo : byte_order) : Z :=
  unit_count bo * (unit_bits / 8).

(** Position of a member's least significant bit inside its unit. *)
Definition lsb_pos (bo : byte_order) (s : slot) : Z :=
  match bo with
  | LITTLE_ENDIAN => s_off s
  | BIG_ENDIAN => unit_bits - s_off s - width (s_field s)
  end.

(** Storing a value in a bit-field keeps its low [width] bits. *)
Definition place (v w pos : Z) : Z := Z.shiftl (Z.land v (Z.ones w)) pos.

(** The 32-bit value of storage unit [u]. *)
Definition unit_value (bo : byte_order) (h : dns_header) (u : Z) : Z :=
  fold_right
    (fun s acc =>
       if s_unit s =? u
       then Z.lor (place (get h (s_field s)) (width (s_field s)) (lsb_pos bo s)) acc
       else acc)
    0 (layout bo).

(** Byte [k] (0..3, in memory order) of a unit holding [v]. *)
Definition unit_byte (bo : byte_order) (v k : Z) : Z :=
  match bo with
  | LITTLE_ENDIAN => Z.land (Z.shiftr v (8 * k)) 255
  | BIG_ENDIAN => Z.land (Z.shiftr v (8 * (3 - k))) 255
  end.

(** Byte [i] of the header as it lies in memory, which is what is sent
    on and read from the wire. *)
Definition header_byte (bo : byte_order) (h : dns_header) (i : Z) : Z :=
  unit_byte bo (unit_value bo h (i / 4)) (i mod 4).

Definition header_bytes (bo : byte_order) (h : dns_header) : list Z :=
  map (fun i => header_byte bo h (Z.of_nat i))
      (seq 0 (Z.to_nat (sizeof_header bo))).

(** Total number of declared bits. *)
Definition total_bits (bo : byte_order) : Z :=
  fold_right (fun f acc => width f + acc) 0 (members bo).

(** The layout of the second flags byte as the specification words it:
    RA, Z, AD, CD, RCODE from the most significant bit down. *)
Definition flags2_spec (h : dns_header) : Z :=
  Z.lor (Z.shiftl (Z.land (ra h) (Z.ones 1)) 7)
    (Z.lor (Z.shiftl (Z.land (z h) (Z.ones 1)) 6)
       (Z.lor (Z.shiftl (Z.land (ad h) (Z.ones 1)) 5)
          (Z.lor (Z.shiftl (Z.land (cd h) (Z.ones 1)) 4)
             (Z.land (rcode h) (Z.ones 4))))).

(** The eight bits of a byte, most significant first. *)
Definition byte_bits (b : Z) : list bool :=
  map (Z.testbit b) [7; 6; 5; 4; 3; 2; 1; 0].

(** The sixteen bits of the two bytes holding a 16-bit member, in the
    order they lie in memory: high byte first on a big-endian host, low
    byte first on a little-endian one (host byte order). *)
Definition u16_bits (bo : byte_order) (v : Z) : list bool :=
  match bo with
  | BIG_ENDIAN =>
      map (Z.testbit v) [15; 14; 13; 12; 11; 10; 9; 8; 7; 6; 5; 4; 3; 2; 1; 0]
  | LITTLE_ENDIAN =>
      map (Z.testbit v) [7; 6; 5; 4; 3; 2; 1; 0; 15; 14; 13; 12; 11; 10; 9; 8]
  end.

(** A header whose only non-zero member is [cd]. *)
Definition cd_only_header : dns_header :=
  {| qid := 0; qr := 0; opcode := 0; aa := 0; tc := 0; rd := 0;
     ra := 0; cd := 1; ad := 0; z := 0; rcode := 0;
     qdcount := 0; ancount := 0; nscount := 0; arcount := 0 |}.

End Header.

(** ** Response codes (dns_private.h, lines 307-322) *)

Module Rcode.

(** The designators of the [dns_rcodes] table, in table order.  They are
    the enumerators of [enum dns_rcode], which [rdns.h] declares. *)
Inductive dns_rcode :=
| RDNS_RC_NOERROR
| RDNS_RC_FORMERR
| RDNS_RC_SERVFAIL
| RDNS_RC_NXDOMAIN
| RDNS_RC_NOTIMP
| RDNS_RC_REFUSED
| RDNS_RC_YXDOMAIN
| RDNS_RC_YXRRSET
| RDNS_RC_NXRRSET
| RDNS_RC_NOTAUTH
| RDNS_RC_NOTZONE
| RDNS_RC_TIMEOUT
| RDNS_RC_NETERR
| RDNS_RC_NOREC.

#[global] Instance dns_rcode_eq_dec : EqDecision dns_rcode.
Proof. solve_decision. Defined.

(** [static const char dns_rcodes[][32]]: the text of every code. *)
Definition dns_rcodes (c : dns_rcode) : string :=
  match c with
  | RDNS_RC_NOERROR => "no error"
  | RDNS_RC_FORMERR => "query format error"
  | RDNS_RC_SERVFAIL => "server fail"
  | RDNS_RC_NXDOMAIN => "no records with this name"
  | RDNS_RC_NOTIMP => "not implemented"
  | RDNS_RC_REFUSED => "query refused"
  | RDNS_RC_YXDOMAIN => "YXDOMAIN"
  | RDNS_RC_YXRRSET => "YXRRSET"
  | RDNS_RC_NXRRSET => "NXRRSET"
  | RDNS_RC_NOTAUTH => "not authorized"
  | RDNS_RC_NOTZONE => "no such zone"
  | RDNS_RC_TIMEOUT => "query timed out"
  | RDNS_RC_NETERR => "network error"
  | RDNS_RC_NOREC => "requested record is not found"
  end%string.

Definition all_rcodes : list dns_rcode :=
  [RDNS_RC_NOERROR; RDNS_RC_FORMERR; RDNS_RC_SERVFAIL; RDNS_RC_NXDOMAIN;
   RDNS_RC_NOTIMP; RDNS_RC_REFUSED; RDNS_RC_YXDOMAIN; RDNS_RC_YXRRSET;
   RDNS_RC_NXRRSET; RDNS_RC_NOTAUTH; RDNS_RC_NOTZONE; RDNS_RC_TIMEOUT;
   RDNS_RC_NETERR; RDNS_RC_NOREC].

(** The name the specification gives each code. *)
Definition surfaced_name (c : dns_rcode) : string :=
  match c with
  | RDNS_RC_NOERROR => "no-error"
  | RDNS_RC_FORMERR => "format-error"
  | RDNS_RC_SERVFAIL => "server-failure"
  | RDNS_RC_NXDOMAIN => "name-not-found"
  | RDNS_RC_NOTIMP => "not-implemented"
  | RDNS_RC_REFUSED => "refused"
  | RDNS_RC_YXDOMAIN => "name-exists"
  | RDNS_RC_YXRRSET => "rrset-exists"
  | RDNS_RC_NXRRSET => "rrset-not-exists"
  | RDNS_RC_NOTAUTH => "not-authorized"
  | RDNS_RC_NOTZONE => "not-a-zone"
  | RDNS_RC_TIMEOUT => "timeout"
  | RDNS_RC_NETERR => "network-error"
  | RDNS_RC_NOREC => "record-not-found"
  end%string.

(** The codes the specification enumerates, in its order. *)
Definition surfaced_codes : list string :=
  ["no-error"; "format-error"; "server-failure"; "name-not-found";
   "not-implemented"; "refused"; "name-exists"; "rrset-exists";
   "rrset-not-exists"; "not-authorized"; "not-a-zone"; "timeout";
   "network-error"; "record-not-found"]%string.

(** A code reports a failure when it is not [RDNS_RC_NOERROR]. *)
Definition is_failure (c : dns_rcode) : bool :=
  match c with RDNS_RC_NOERROR => false | _ => true end.

End Rcode.

(** ** Record types (dns_private.h, lines 289-305) *)

Module DnsType.

(** The enumerators of [enum rdns_request_type] that the header uses. *)
Inductive rdns_request_type :=
| RDNS_REQUEST_A
| RDNS_REQUEST_NS
| RDNS_REQUEST_SOA
| RDNS_REQUEST_PTR
| RDNS_REQUEST_MX
| RDNS_REQUEST_TXT
| RDNS_REQUEST_AAAA
| RDNS_REQUEST_SRV
| RDNS_REQUEST_TLSA
| RDNS_REQUEST_SPF
| RDNS_REQUEST_ANY.

(** [enum dns_type]. *)
Inductive dns_type :=
| DNS_T_A
| DNS_T_NS
| DNS_T_CNAME
| DNS_T_SOA
| DNS_T_PTR
| DNS_T_MX
| DNS_T_TXT
| DNS_T_AAAA
| DNS_T_SRV
| DNS_T_OPT
| DNS_T_SSHFP
| DNS_T_TLSA
| DNS_T_SPF
| DNS_T_ALL.

Definition all_request_types : list rdns_request_type :=
  [RDNS_REQUEST_A; RDNS_REQUEST_NS; RDNS_REQUEST_SOA; RDNS_REQUEST_PTR;
   RDNS_REQUEST_MX; RDNS_REQUEST_TXT; RDNS_REQUEST_AAAA; RDNS_REQUEST_SRV;
   RDNS_REQUEST_TLSA; RDNS_REQUEST_SPF; RDNS_REQUEST_ANY].

Section Values.

(** The integer value of every [RDNS_REQUEST_*] enumerator is fixed by
    [rdns.h]; the header only refers to them by name. *)
Variable request_value : rdns_request_type -> Z.

(** The initialiser of every [DNS_T_*] enumerator. *)
Definition dns_type_value (t : dns_type) : Z :=
  match t with
  | DNS_T_A => request_value RDNS_REQUEST_A
  | DNS_T_NS => request_value RDNS_REQUEST_NS
  | DNS_T_CNAME => 5
  | DNS_T_SOA => request_value RDNS_REQUEST_SOA
  | DNS_T_PTR => request_value RDNS_REQUEST_PTR
  | DNS_T_MX => request_value RDNS_REQUEST_MX
  | DNS_T_TXT => request_value RDNS_REQUEST_TXT
  | DNS_T_AAAA => request_value RDNS_REQUEST_AAAA
  | DNS_T_SRV => request_value RDNS_REQUEST_SRV
  | DNS_T_OPT => 41
  | DNS_T_SSHFP => 44
  | DNS_T_TLSA => request_value RDNS_REQUEST_TLSA
  | DNS_T_SPF => request_value RDNS_REQUEST_SPF
  | DNS_T_ALL => request_value RDNS_REQUEST_ANY
  end.

End Values.

(** The wire type standing for a request type. *)
Definition wire_type (t : rdns_request_type) : dns_type :=
  match t with
  | RDNS_REQUEST_A => DNS_T_A
  | RDNS_REQUEST_NS => DNS_T_NS
  | RDNS_REQUEST_SOA => DNS_T_SOA
  | RDNS_REQUEST_PTR => DNS_T_PTR
  | RDNS_REQUEST_MX => DNS_T_MX
  | RDNS_REQUEST_TXT => DNS_T_TXT
  | RDNS_REQUEST_AAAA => DNS_T_AAAA
  | RDNS_REQUEST_SRV => DNS_T_SRV
  | RDNS_REQUEST_TLSA => DNS_T_TLSA
  | RDNS_REQUEST_SPF => DNS_T_SPF
  | RDNS_REQUEST_ANY => DNS_T_ALL
  end.

(** The wire types that are not aliases carry literal codes. *)
Definition is_alias (t : dns_type) : bool :=
  match t with
  | DNS_T_CNAME | DNS_T_OPT | DNS_T_SSHFP => false
  | _ => true
  end.

End DnsType.

(** ** TCP framing (dns_private.h, lines 152-177) *)

Module Tcp.
Import Header.

(** Arithmetic on [uint16_t] wraps at 2^16. *)
Definition wrap16 (v : Z) : Z := v mod 65536.

(** A [uint16_t] object as it lies in memory: the byte at offset 0 and
    the byte at offset 1, for a host of the given byte order. *)
Definition u16_mem (bo : byte_order) (v : Z) : Z * Z :=
  match bo with
  | BIG_ENDIAN => (v / 256 mod 256, v mod 256)
  | LITTLE_ENDIAN => (v mod 256, v / 256 mod 256)
  end.

(** The value of the [uint16_t] whose two bytes in memory are [m]. *)
Definition u16_of_mem (bo : byte_order) (m : Z * Z) : Z :=
  match bo with
  | BIG_ENDIAN => (fst m mod 256) * 256 + snd m mod 256
  | LITTLE_ENDIAN => fst m mod 256 + (snd m mod 256) * 256
  end.

(** The C library's [htons]: the object whose memory image is [v] in
    network order; and [ntohs]: the number a memory image denotes when
    read in network order. *)
Definition htons (bo : byte_order) (v : Z) : Z :=
  u16_of_mem bo (v / 256 mod 256, v mod 256).

(** [struct rdns_tcp_output_chain]; the [prev]/[next] links are the
    order of the list the entries are kept in. *)
Record rdns_tcp_output_chain := {
  next_write_size : Z;   (* uint16_t, network byte order *)
  cur_write : Z;         (* uint16_t, bytes written including the size *)
  write_buf : list Z
}.



(** Modelled from the spec: the wire form of a message on a TCP
    connection (section 6, TCP framing), a 2-byte big-endian length
    followed by the message.  The framing functions themselves are in
    [resolver.c], which is not part of the sources at hand. *)
Definition frame (msg : list Z) : list Z :=
  let len := Z.of_nat (length msg) in
  [len / 256 mod 256; len mod 256] ++ msg.

(** Modelled from the spec: a new entry of the outgoing chain (section
    4.3, REGISTERED to WAIT_SEND): the packet with its length prefix, the
    size kept in network byte order as the structure's comment says,
    nothing written yet. *)
Definition make_entry (bo : byte_order) (msg : list Z) : rdns_tcp_output_chain :=
  {| next_write_size := htons bo (wrap16 (Z.of_nat (length msg)));
     cur_write := 0;
     write_buf := msg |}.

(** The bytes an entry stands for: the size field as it lies in memory,
    then the buffer. *)
Definition entry_bytes (bo : byte_order) (e : rdns_tcp_output_chain) : list Z :=
  [fst (u16_mem bo (next_write_size e)); snd (u16_mem bo (next_write_size e))]
    ++ write_buf e.
















(** A message whose length and two-byte prefix fit the 16-bit counters. *)
Definition fits (msg : list Z) : Prop := Z.of_nat (length msg) + 2 < 65536.









End Tcp.

(** ** Requests and I/O channels (dns_private.h, lines 109-205) *)

Module Resolver.
Import ReqState Rcode.

(** [enum rdns_io_channel_flags]. *)
Definition RDNS_CHANNEL_CONNECTED : Z := Z.shiftl 1 0.
Definition RDNS_CHANNEL_ACTIVE : Z := Z.shiftl 1 1.
Definition RDNS_CHANNEL_TCP : Z := Z.shiftl 1 2.
Definition RDNS_CHANNEL_TCP_CONNECTING : Z := Z.shiftl 1 3.

(** [struct rdns_request], the members the life cycle works on.  The [io]
    pointer is the number of the channel, [None] for a null pointer;
    [reply] keeps the response code of the reply prepared for the request. *)
Record rdns_request := {
  id : Z;
  io : option nat;
  state : rdns_request_state;
  retransmits : Z;
  reply : option dns_rcode
}.

(** [struct rdns_io_channel]: [requests] is the hash declared by
    [KHASH_DECLARE] as [rdns_requests_hash], from an [int] transaction id
    to a pointer to the request. *)
Record rdns_io_channel := {
  flags : Z;
  requests : gmap Z nat;
  uses : Z
}.

(** [IS_CHANNEL_CONNECTED], [IS_CHANNEL_ACTIVE], [IS_CHANNEL_TCP]. *)
Definition IS_CHANNEL_CONNECTED (ioc : rdns_io_channel) : bool :=
  negb (Z.land (flags ioc) RDNS_CHANNEL_CONNECTED =? 0).
Definition IS_CHANNEL_ACTIVE (ioc : rdns_io_channel) : bool :=
  negb (Z.land (flags ioc) RDNS_CHANNEL_ACTIVE =? 0).
Definition IS_CHANNEL_TCP (ioc : rdns_io_channel) : bool :=
  negb (Z.land (flags ioc) RDNS_CHANNEL_TCP =? 0).

(** Modelled from the spec: the memory the resolver works on (section
    3): the requests by address, the channels by number, the next free
    address, the record of every invocation of a continuation (request and
    code, oldest first), and the requests given up by their owner before
    completion. *)
Record rstate := {
  heap : gmap nat rdns_request;
  channels : gmap nat rdns_io_channel;
  next_request : nat;
  fired : list (nat * dns_rcode);
  released : list nat
}.

Definition rstate_init : rstate :=
  {| heap := ∅; channels := ∅; next_request := 0%nat; fired := [];
     released := [] |}.

(** The request registered under transaction id [k] on channel [c]. *)
Definition index (chs : gmap nat rdns_io_channel) (c : nat) (k : Z) : option nat :=
  match chs !! c with
  | Some ch => requests ch !! k
  | None => None
  end.

(** How often the continuation of request [r] has been invoked. *)
Definition invocations (r : nat) (log : list (nat * dns_rcode)) : nat :=
  length (List.filter (fun e => Nat.eqb (fst e) r) log).

(** The states in which a request sits in a channel's index. *)
Definition is_registered (s : rdns_request_state) : bool :=
  match s with
  | RDNS_REQUEST_REGISTERED | RDNS_REQUEST_WAIT_SEND
  | RDNS_REQUEST_WAIT_REPLY | RDNS_REQUEST_TCP => true
  | _ => false
  end.

Definition set_state (q : rdns_request) (s : rdns_request_state) : rdns_request :=
  {| id := id q; io := io q; state := s; retransmits := retransmits q;
     reply := reply q |}.

Definition with_heap (σ : rstate) (h : gmap nat rdns_request) : rstate :=
  {| heap := h; channels := channels σ; next_request := next_request σ;
     fired := fired σ; released := released σ |}.

(** Modelled from the spec: the failure classes of section 7 and the ones
    that are fatal only, never retried.  The resolver's functions are in
    [resolver.c], which is not part of the sources at hand. *)
Inductive failure :=
| ProtocolError
| TransportError
| TimeoutError
| ResourceError
| ConfigurationError
| ContractViolation.

Definition fatal_only (f : failure) : bool :=
  match f with
  | ConfigurationError | ContractViolation => true
  | _ => false
  end.

(** Modelled from the spec: NEW to REGISTERED (section 4.3).  The request
    is inserted in the channel's index under its transaction id; the
    channel not being there is a resource error, the id being taken
    already is a contract violation, and neither changes anything. *)
Definition rdns_register (r c : nat) (σ : rstate) : failure + rstate :=
  match heap σ !! r with
  | None => inl ResourceError
  | Some q =>
      match state q, channels σ !! c with
      | RDNS_REQUEST_NEW, Some ch =>
          match requests ch !! id q with
          | Some _ => inl ContractViolation
          | None =>
              inr {| heap := <[r := {| id := id q; io := Some c;
                                       state := RDNS_REQUEST_REGISTERED;
                                       retransmits := retransmits q;
                                       reply := reply q |}]> (heap σ);
                     channels := <[c := {| flags := flags ch;
                                           requests := <[id q := r]> (requests ch);
                                           uses := uses ch |}]> (channels σ);
                     next_request := next_request σ;
                     fired := fired σ; released := released σ |}
          end
      | _, _ => inl ResourceError
      end
  end.

(** Modelled from the spec: removing a request from the index of the
    channel it points to (sections 4.2 and 4.3); [done] tells whether the
    request completed, which counts as one more use of the channel
    ([uses] is a [uint64_t]). *)
Definition deregister (q : rdns_request) (done : bool)
    (chs : gmap nat rdns_io_channel) : gmap nat rdns_io_channel :=
  match io q with
  | Some c =>
      alter (fun ch =>
               {| flags := flags ch;
                  requests := delete (id q) (requests ch);
                  uses := if done then (uses ch + 1) mod 2 ^ 64 else uses ch |})
            c chs
  | None => chs
  end.

(** Modelled from the spec: entering a terminal state (section 4.3): the
    request leaves the index of its channel and its continuation is
    invoked with the code.  Success and failure both end here. *)
Definition finish (r : nat) (q : rdns_request) (s : rdns_request_state)
    (code : dns_rcode) (σ : rstate) : rstate :=
  {| heap := <[r := set_state q s]> (heap σ);
     channels := deregister q true (channels σ);
     next_request := next_request σ;
     fired := fired σ ++ [(r, code)];
     released := released σ |}.

(** Modelled from the spec: cancellation (section 5): the last reference
    to a request that is not in a terminal state is released; the request
    leaves the index and is freed, no continuation is invoked. *)
Definition cancel (r : nat) (σ : rstate) : rstate :=
  match heap σ !! r with
  | Some q =>
      if is_terminal (state q) then σ
      else {| heap := delete r (heap σ);
              channels := deregister q false (channels σ);
              next_request := next_request σ;
              fired := fired σ;
              released := r :: released σ |}
  | None => σ
  end.

(** Modelled from the spec: what happens to the resolver, one event per
    transition of section 4.3, cancellation (section 5) and failure
    (section 7). *)
Inductive event :=
| EvOpen (c : nat) (fl : Z)                      (* a channel is created *)
| EvNew (qid : Z)                                (* resolve: a NEW request *)
| EvFake (r : nat) (code : dns_rcode)            (* hit in the fake registry *)
| EvFakeDeliver (r : nat)                        (* the canned reply is handed over *)
| EvRegister (r c : nat)
| EvQueue (r : nat)                              (* packet queued for write *)
| EvSent (r : nat)                               (* packet flushed *)
| EvReply (c : nat) (qid : Z) (code : dns_rcode) (* complete reply read on [c] *)
| EvTruncated (c : nat) (qid : Z) (c' : nat)     (* truncated UDP reply, go to [c'] *)
| EvMalformed (c : nat) (qid : Z)                (* malformed reply for [qid] *)
| EvTimeout (r : nat)                            (* the request's timer fires *)
| EvNetError (r : nat)                           (* transport failure *)
| EvCancel (r : nat).

(** Modelled from the spec: transaction-id matching (section 4.4): the
    request a frame read on channel [c] with id [qid] is for, when it is
    waiting for a reply. *)
Definition waiting (σ : rstate) (c : nat) (qid : Z) : option (nat * rdns_request) :=
  match index (channels σ) c qid with
  | Some r =>
      match heap σ !! r with
      | Some q =>
          match state q with
          | RDNS_REQUEST_WAIT_REPLY => Some (r, q)
          | _ => None
          end
      | None => None
      end
  | None => None
  end.

(** Modelled from the spec: the transitions of section 4.3, with the
    cancellation of section 5 and the failures of section 7.  [limit] is
    the configured number of retransmits.  An event that does not apply
    in the current state leaves it as it is. *)
Definition step (limit : Z) (σ : rstate) (ev : event) : rstate :=
  match ev with
  | EvOpen c fl =>
      match channels σ !! c with
      | Some _ => σ
      | None =>
          {| heap := heap σ;
             channels := <[c := {| flags := fl; requests := ∅; uses := 0 |}]>
                           (channels σ);
             next_request := next_request σ;
             fired := fired σ; released := released σ |}
      end
  | EvNew qid =>
      {| heap := <[next_request σ :=
                     {| id := qid; io := None; state := RDNS_REQUEST_NEW;
                        retransmits := 0; reply := None |}]> (heap σ);
         channels := channels σ;
         next_request := S (next_request σ);
         fired := fired σ; released := released σ |}
  | EvFake r code =>
      match heap σ !! r with
      | Some q =>
          match state q with
          | RDNS_REQUEST_NEW =>
              with_heap σ
                (<[r := {| id := id q; io := io q; state := RDNS_REQUEST_FAKE;
                           retransmits := retransmits q;
                           reply := Some code |}]> (heap σ))
          | _ => σ
          end
      | None => σ
      end
  | EvFakeDeliver r =>
      match heap σ !! r with
      | Some q =>
          match state q with
          | RDNS_REQUEST_FAKE =>
              finish r q RDNS_REQUEST_REPLIED
                (default RDNS_RC_NOERROR (reply q)) σ
          | _ => σ
          end
      | None => σ
      end
  | EvRegister r c =>
      match rdns_register r c σ with
      | inr σ' => σ'
      | inl _ => σ
      end
  | EvQueue r =>
      match heap σ !! r with
      | Some q =>
          match state q with
          | RDNS_REQUEST_REGISTERED | RDNS_REQUEST_TCP =>
              with_heap σ (<[r := set_state q RDNS_REQUEST_WAIT_SEND]> (heap σ))
          | _ => σ
          end
      | None => σ
      end
  | EvSent r =>
      match heap σ !! r with
      | Some q =>
          match state q with
          | RDNS_REQUEST_WAIT_SEND =>
              with_heap σ (<[r := set_state q RDNS_REQUEST_WAIT_REPLY]> (heap σ))
          | _ => σ
          end
      | None => σ
      end
  | EvReply c qid code =>
      match waiting σ c qid with
      | Some (r, q) => finish r q RDNS_REQUEST_REPLIED code σ
      | None => σ
      end
  | EvTruncated c qid c' =>
      match waiting σ c qid, channels σ !! c' with
      | Some (r, q), Some ch' =>
          if IS_CHANNEL_TCP ch' && bool_decide (requests ch' !! qid = None)
          then
            {| heap := <[r := {| id := id q; io := Some c';
                                 state := RDNS_REQUEST_TCP;
                                 retransmits := retransmits q;
                                 reply := reply q |}]> (heap σ);
               channels :=
                 alter (fun ch =>
                          {| flags := flags ch;
                             requests := <[id q := r]> (requests ch);
                             uses := uses ch |})
                       c' (deregister q false (channels σ));
               next_request := next_request σ;
               fired := fired σ; released := released σ |}
          else σ
      | _, _ => σ
      end
  | EvMalformed c qid =>
      match waiting σ c qid with
      | Some (r, q) => finish r q RDNS_REQUEST_ERROR RDNS_RC_FORMERR σ
      | None => σ
      end
  | EvTimeout r =>
      match heap σ !! r with
      | Some q =>
          match state q with
          | RDNS_REQUEST_WAIT_REPLY =>
              if retransmits q <? limit
              then with_heap σ
                     (<[r := {| id := id q; io := io q;
                                state := RDNS_REQUEST_WAIT_SEND;
                                retransmits := retransmits q + 1;
                                reply := reply q |}]> (heap σ))
              else finish r q RDNS_REQUEST_ERROR RDNS_RC_TIMEOUT σ
          | _ => σ
          end
      | None => σ
      end
  | EvNetError r =>
      match heap σ !! r with
      | Some q =>
          if is_registered (state q)
          then finish r q RDNS_REQUEST_ERROR RDNS_RC_NETERR σ
          else σ
      | None => σ
      end
  | EvCancel r => cancel r σ
  end.

Definition run (limit : Z) (evs : list event) (σ : rstate) : rstate :=
  fold_left (step limit) evs σ.

(** What holds of the resolver's memory between two events. *)
Record consistent (σ : rstate) : Prop := {
  (* an index entry points to a live request with that id, on that
     channel, in a registered state *)
  index_sound : forall c k r,
    index (channels σ) c k = Some r ->
    exists q, heap σ !! r = Some q /\ id q = k /\ io q = Some c /\
              is_registered (state q) = true;
  (* a request in a registered state is in the index of its channel *)
  index_complete : forall r q,
    heap σ !! r = Some q -> is_registered (state q) = true ->
    exists c, io q = Some c /\ index (channels σ) c (id q) = Some r;
  (* a request not yet registered points to no channel *)
  unregistered_io : forall r q,
    heap σ !! r = Some q -> is_registered (state q) = false ->
    is_terminal (state q) = false -> io q = None;
  (* the continuation has run once for a request in a terminal state and
     not at all for any other address *)
  fired_live : forall r q,
    heap σ !! r = Some q ->
    invocations r (fired σ) = if is_terminal (state q) then 1%nat else 0%nat;
  fired_dead : forall r, heap σ !! r = None -> invocations r (fired σ) = 0%nat;
  (* a request in the ERROR state was handed a failure code *)
  error_code : forall r q,
    heap σ !! r = Some q -> state q = RDNS_REQUEST_ERROR ->
    exists code, In (r, code) (fired σ) /\ is_failure code = true;
  (* addresses are not reused *)
  heap_fresh : forall r q, heap σ !! r = Some q -> (r < next_request σ)%nat;
  released_fresh : forall r, In r (released σ) -> (r < next_request σ)%nat;
  released_dead : forall r, In r (released σ) -> heap σ !! r = None
}.

(** A short history: a request answered after one retransmit, one
    cancelled while waiting, and one refused for reusing an id. *)
Definition sample_events : list event :=
  [EvOpen 0 1; EvNew 7; EvRegister 0 0; EvQueue 0; EvSent 0;
   EvNew 8; EvRegister 1 0; EvNew 7; EvRegister 2 0;
   EvTimeout 0; EvSent 0; EvQueue 1; EvCancel 1;
   EvReply 0 7 RDNS_RC_NXDOMAIN; EvReply 0 7 RDNS_RC_NOERROR].

End Resolver.


(** ** Reading the header back (dns_private.h, lines 48-81) *)

Module HeaderLoad.
Import Header.

#[global] Instance field_eq_dec : EqDecision field.
Proof. solve_decision. Defined.

(** The storage unit and offset the declaration gives a member. *)
Definition slot_of (bo : byte_order) (f : field) : option slot :=
  List.find (fun s => bool_decide (s_field s = f)) (layout bo).

(** The value of a 32-bit storage unit whose four bytes lie in memory in
    host byte order. *)
Definition unit_of_bytes (bo : byte_order) (b0 b1 b2 b3 : Z) : Z :=
  match bo with
  | LITTLE_ENDIAN => b0 + 2 ^ 8 * b1 + 2 ^ 16 * b2 + 2 ^ 24 * b3
  | BIG_ENDIAN => b3 + 2 ^ 8 * b2 + 2 ^ 16 * b1 + 2 ^ 24 * b0
  end.

(** Storage unit [u] of a header lying in memory as the bytes [mem]. *)
Definition load_unit (bo : byte_order) (mem : list Z) (u : Z) : Z :=
  let i := Z.to_nat (4 * u) in
  unit_of_bytes bo (nth i mem 0) (nth (i + 1) mem 0)
    (nth (i + 2) mem 0) (nth (i + 3) mem 0).

(** Reading member [f] ([hdr->f] in C) from a header lying in memory as
    [mem]: the bits of its slot, as an unsigned number. *)
Definition load_member (bo : byte_order) (mem : list Z) (f : field) : Z :=
  match slot_of bo f with
  | Some s =>
      Z.land (Z.shiftr (load_unit bo mem (s_unit s)) (lsb_pos bo s))
             (Z.ones (width f))
  | None => 0
  end.

#[global] Instance slot_eq_dec : EqDecision slot.
Proof. solve_decision. Defined.

(** Bit [m] of storage unit [u] belongs to the slot. *)
Definition covers (bo : byte_order) (s : slot) (u m : Z) : bool :=
  (s_unit s =? u) && (lsb_pos bo s <=? m)
  && (m <? lsb_pos bo s + width (s_field s)).

(** Two slots share no bit: they are the same slot, lie in different
    units, or one ends before the other begins. *)
Definition apart (bo : byte_order) (s s' : slot) : bool :=
  bool_decide (s' = s) || negb (s_unit s' =? s_unit s)
  || (lsb_pos bo s' + width (s_field s') <=? lsb_pos bo s)
  || (lsb_pos bo s + width (s_field s) <=? lsb_pos bo s').

(** A header is in range when every member fits its declared width, as
    every value read from a bit-field does. *)
Definition in_range (h : dns_header) : Prop :=
  forall f, 0 <= get h f < 2 ^ width f.

(** The header whose members are read from memory. *)
Definition load_header (bo : byte_order) (mem : list Z) : dns_header :=
  {| qid := load_member bo mem F_qid;
     qr := load_member bo mem F_qr;
     opcode := load_member bo mem F_opcode;
     aa := load_member bo mem F_aa;
     tc := load_member bo mem F_tc;
     rd := load_member bo mem F_rd;
     ra := load_member bo mem F_ra;
     cd := load_member bo mem F_cd;
     ad := load_member bo mem F_ad;
     z := load_member bo mem F_z;
     rcode := load_member bo mem F_rcode;
     qdcount := load_member bo mem F_qdcount;
     ancount := load_member bo mem F_ancount;
     nscount := load_member bo mem F_nscount;
     arcount := load_member bo mem F_arcount |}.

(** [hdr->f = v]: the header with member [f] assigned. *)
Definition set_member (h : dns_header) (f : field) (v : Z) : dns_header :=
  {| qid := if decide (f = F_qid) then v else qid h;
     qr := if decide (f = F_qr) then v else qr h;
     opcode := if decide (f = F_opcode) then v else opcode h;
     aa := if decide (f = F_aa) then v else aa h;
     tc := if decide (f = F_tc) then v else tc h;
     rd := if decide (f = F_rd) then v else rd h;
     ra := if decide (f = F_ra) then v else ra h;
     cd := if decide (f = F_cd) then v else cd h;
     ad := if decide (f = F_ad) then v else ad h;
     z := if decide (f = F_z) then v else z h;
     rcode := if decide (f = F_rcode) then v else rcode h;
     qdcount := if decide (f = F_qdcount) then v else qdcount h;
     ancount := if decide (f = F_ancount) then v else ancount h;
     nscount := if decide (f = F_nscount) then v else nscount h;
     arcount := if decide (f = F_arcount) then v else arcount h |}.

(** A header with every member in range. *)
Definition sample_header : dns_header :=
  {| qid := 0xBEEF; qr := 1; opcode := 5; aa := 0; tc := 1; rd := 1;
     ra := 0; cd := 1; ad := 0; z := 0; rcode := 3;
     qdcount := 1; ancount := 2; nscount := 0; arcount := 513 |}.

End HeaderLoad.

(** ** Sections, opcodes and classes (dns_private.h, lines 250-281) *)

Module DnsEnums.

(** [enum dns_section]. *)
Inductive dns_section :=
| DNS_S_QD
| DNS_S_AN
| DNS_S_NS
| DNS_S_AR.

Definition section_value (s : dns_section) : Z :=
  match s with
  | DNS_S_QD => 0x01
  | DNS_S_AN => 0x02
  | DNS_S_NS => 0x04
  | DNS_S_AR => 0x08
  end.

(** [DNS_S_ALL = 0x0f], the fifth enumerator. *)
Definition DNS_S_ALL : Z := 0x0f.

#[global] Instance dns_section_eq_dec : EqDecision dns_section.
Proof. solve_decision. Defined.

(** The bit an enumerator stands for. *)
Definition section_bit (s : dns_section) : Z :=
  match s with
  | DNS_S_QD => 0
  | DNS_S_AN => 1
  | DNS_S_NS => 2
  | DNS_S_AR => 3
  end.

(** A set of sections as the enumerators combine: the bitwise or of
    their values. *)
Definition section_mask (l : list dns_section) : Z :=
  fold_right (fun s acc => Z.lor (section_value s) acc) 0 l.

(** [mask & section] is non-zero. *)
Definition has_section (mask : Z) (s : dns_section) : bool :=
  negb (Z.land mask (section_value s) =? 0).

(** [enum dns_opcode]. *)
Inductive dns_opcode :=
| DNS_OP_QUERY
| DNS_OP_IQUERY
| DNS_OP_STATUS
| DNS_OP_NOTIFY
| DNS_OP_UPDATE.

Definition opcode_value (o : dns_opcode) : Z :=
  match o with
  | DNS_OP_QUERY => 0
  | DNS_OP_IQUERY => 1
  | DNS_OP_STATUS => 2
  | DNS_OP_NOTIFY => 4
  | DNS_OP_UPDATE => 5
  end.

(** Reading a number as an opcode; 3 and everything above 5 is none. *)
Definition opcode_of_value (v : Z) : option dns_opcode :=
  match v with
  | 0 => Some DNS_OP_QUERY
  | 1 => Some DNS_OP_IQUERY
  | 2 => Some DNS_OP_STATUS
  | 4 => Some DNS_OP_NOTIFY
  | 5 => Some DNS_OP_UPDATE
  | _ => None
  end.

End DnsEnums.

(** ** Names of the request types (dns_private.h, lines 324-335) *)

Module TypeNames.
Import DnsType.

(** [static const char dns_types[][16]]: the rows the initialiser
    designates.  A request type without a designator has no text of its
    own. *)
Definition dns_types (t : rdns_request_type) : option string :=
  match t with
  | RDNS_REQUEST_A => Some "A request"
  | RDNS_REQUEST_NS => Some "NS request"
  | RDNS_REQUEST_PTR => Some "PTR request"
  | RDNS_REQUEST_MX => Some "MX request"
  | RDNS_REQUEST_TXT => Some "TXT request"
  | RDNS_REQUEST_SRV => Some "SRV request"
  | RDNS_REQUEST_SPF => Some "SPF request"
  | RDNS_REQUEST_AAAA => Some "AAAA request"
  | RDNS_REQUEST_TLSA => Some "TLSA request"
  | RDNS_REQUEST_ANY => Some "ANY request"
  | RDNS_REQUEST_SOA => None
  end%string.

End TypeNames.

(** ** Channel flags (dns_private.h, lines 141-150) *)

Module ChannelFlags.
Import Resolver.

(** The enumerators of [enum rdns_io_channel_flags]. *)
Inductive channel_flag :=
| CONNECTED
| ACTIVE
| TCP
| TCP_CONNECTING.

#[global] Instance channel_flag_eq_dec : EqDecision channel_flag.
Proof. solve_decision. Defined.

Definition flag_value (fl : channel_flag) : Z :=
  match fl with
  | CONNECTED => RDNS_CHANNEL_CONNECTED
  | ACTIVE => RDNS_CHANNEL_ACTIVE
  | TCP => RDNS_CHANNEL_TCP
  | TCP_CONNECTING => RDNS_CHANNEL_TCP_CONNECTING
  end.

(** The shift count in the enumerator's initialiser [1u << k]. *)
Definition flag_bit (fl : channel_flag) : Z :=
  match fl with
  | CONNECTED => 0
  | ACTIVE => 1
  | TCP => 2
  | TCP_CONNECTING => 3
  end.

(** The test the [IS_CHANNEL_*] macros make, for any flag:
    [((ioc)->flags & FLAG) != 0]. *)
Definition test_flag (ioc : rdns_io_channel) (fl : channel_flag) : bool :=
  negb (Z.land (flags ioc) (flag_value fl) =? 0).

(** [ioc->flags |= FLAG] and [ioc->flags &= ~FLAG]. *)
Definition raise_flag (ioc : rdns_io_channel) (fl : channel_flag) : rdns_io_channel :=
  {| flags := Z.lor (flags ioc) (flag_value fl);
     requests := requests ioc; uses := uses ioc |}.
Definition drop_flag (ioc : rdns_io_channel) (fl : channel_flag) : rdns_io_channel :=
  {| flags := Z.land (flags ioc) (Z.lnot (flag_value fl));
     requests := requests ioc; uses := uses ioc |}.

End ChannelFlags.

(** * Properties *)

(** ** Limits *)

(** C10: the built-in defaults and limits are port 53, 8 UDP and 1 TCP
  I/O channels per server, a 4096-byte UDP packet buffer, and names of
  at most 63 bytes per label and 253 bytes in full. *)
Theorem builtin_defaults_and_limits :
Limits.dns_port = 53 /\
Limits.default_io_cnt = 8 /\
Limits.default_tcp_io_cnt = 1 /\
Limits.UDP_PACKET_SIZE = 4096 /\
Limits.DNS_D_MAXLABEL = 63 /\
Limits.DNS_D_MAXNAME = 253 /\
Limits.default_server =
  {| Limits.port := 53; Limits.io_cnt := 8; Limits.tcp_io_cnt := 1 |} /\
(forall n, Limits.label_ok n = true <-> 0 <= n <= 63) /\
(forall n, Limits.name_ok n = true <-> 0 <= n <= 253).
Proof.
repeat split; try reflexivity;
  unfold Limits.label_ok, Limits.name_ok,
    Limits.DNS_D_MAXLABEL, Limits.DNS_D_MAXNAME in *;
  rewrite ?andb_true_iff, ?Z.leb_le in *; lia.
Qed.

(** ** Request states *)

Section RequestStates.
Import ReqState.

Lemma state_value_range s : 0 <= state_value s <= 7.
Proof. destruct s; cbn; lia. Qed.

Lemma state_of_value_sound v s :
  state_of_value v = Some s -> state_value s = v.
Proof.
  destruct v as [|p|p]; cbn; try discriminate.
  - intros [= <-]; reflexivity.
  - repeat (match goal with q : positive |- _ => destruct q end;
            cbn; try discriminate);
      intros [= <-]; reflexivity.
Qed.

(** C6: the life-cycle state type has exactly the eight states NEW,
    REGISTERED, WAIT_SEND, WAIT_REPLY, REPLIED, ERROR, FAKE and TCP, and
    a request is in exactly one of them. *)
Theorem request_states_exactly_eight :
  (forall s, In s all_states) /\
  NoDup all_states /\
  length all_states = 8%nat /\
  (forall s, state_of_value (state_value s) = Some s) /\
  (forall v, 0 <= v <= 7 <-> exists s, state_of_value v = Some s) /\
  (forall r : Resolver.rdns_request,
      exists s, In s all_states /\ Resolver.state r = s /\
                forall s', Resolver.state r = s' -> s' = s).
Proof.
  split; [intros []; cbn; tauto|].
  split; [apply (bool_decide_unpack _); vm_compute; reflexivity|].
  split; [reflexivity|].
  split; [intros []; reflexivity|].
  split.
  - intros v; split.
    + intros Hv.
      assert (v = 0 \/ v = 1 \/ v = 2 \/ v = 3 \/ v = 4 \/ v = 5 \/ v = 6 \/ v = 7)
        as Hc by lia.
      repeat destruct Hc as [-> | Hc]; try subst v; cbn; eauto.
    + intros [s Hs]. apply state_of_value_sound in Hs. subst v.
      apply state_value_range.
  - intros r. exists (Resolver.state r).
    split; [|split; [reflexivity|congruence]].
    destruct (Resolver.state r); cbn; tauto.
Qed.

End RequestStates.

(** ** Header layout *)

Section HeaderLayout.
Import Header.

Ltac expose :=
  cbv -[Z.lor Z.land Z.shiftl Z.shiftr Z.ones Z.testbit andb orb
        qid qr opcode aa tc rd ra cd ad z rcode
        qdcount ancount nscount arcount].

Ltac bit_norm :=
  change 255 with (Z.ones 8);
  repeat (rewrite ?Z.land_spec, ?Z.lor_spec, ?Z.bits_0;
          rewrite ?Z.shiftl_spec, ?Z.shiftr_spec, ?Z.testbit_ones by lia);
  expose;
  rewrite ?andb_false_r, ?andb_true_r, ?orb_false_r, ?orb_false_l.

Ltac layout_by_bits := intros [] ?; expose; bit_norm; reflexivity.

Lemma header_byte_range bo h i : 0 <= header_byte bo h i < 256.
Proof.
  unfold header_byte, unit_byte.
  destruct bo; change 255 with (Z.ones 8); rewrite Z.land_ones by lia;
    change (2 ^ 8) with 256; apply Z.mod_pos_bound; lia.
Qed.

Lemma byte_bits_inj a b :
  0 <= a < 256 -> 0 <= b < 256 -> byte_bits a = byte_bits b -> a = b.
Proof.
  intros Ha Hb Hbits.
  injection Hbits as H7 H6 H5 H4 H3 H2 H1 H0.
  apply Z.bits_inj'. intros n Hn.
  destruct (Z_lt_le_dec n 8) as [Hlt | Hge].
  - assert (n = 0 \/ n = 1 \/ n = 2 \/ n = 3 \/
            n = 4 \/ n = 5 \/ n = 6 \/ n = 7) as Hc by lia.
    repeat destruct Hc as [-> | Hc]; try subst n; assumption.
  - replace a with (Z.land a (Z.ones 8))
      by (rewrite Z.land_ones by lia; apply Z.mod_small; exact Ha).
    replace b with (Z.land b (Z.ones 8))
      by (rewrite Z.land_ones by lia; apply Z.mod_small; exact Hb).
    rewrite !Z.land_spec, Z.testbit_ones by lia.
    replace (n <? 8) with false by (symmetry; apply Z.ltb_ge; lia).
    rewrite !andb_false_r. reflexivity.
Qed.

Lemma sizeof_header_12 bo : sizeof_header bo = 12.
Proof. destruct bo; reflexivity. Qed.

Lemma total_bits_96 bo : total_bits bo = 96.
Proof. destruct bo; reflexivity. Qed.

Lemma header_bytes_length bo h : length (header_bytes bo h) = 12%nat.
Proof.
  unfold header_bytes. rewrite length_map, length_seq, sizeof_header_12.
  reflexivity.
Qed.

Lemma qid_bytes : forall bo h,
  byte_bits (header_byte bo h 0) ++ byte_bits (header_byte bo h 1)
  = u16_bits bo (qid h).
Proof. layout_by_bits. Qed.

Lemma flags1_bits : forall bo h,
  byte_bits (header_byte bo h 2)
  = [Z.testbit (qr h) 0;
     Z.testbit (opcode h) 3; Z.testbit (opcode h) 2;
     Z.testbit (opcode h) 1; Z.testbit (opcode h) 0;
     Z.testbit (aa h) 0; Z.testbit (tc h) 0; Z.testbit (rd h) 0].
Proof. layout_by_bits. Qed.

Lemma flags2_bits : forall bo h,
  byte_bits (header_byte bo h 3)
  = [Z.testbit (ra h) 0; Z.testbit (cd h) 0;
     Z.testbit (ad h) 0; Z.testbit (z h) 0;
     Z.testbit (rcode h) 3; Z.testbit (rcode h) 2;
     Z.testbit (rcode h) 1; Z.testbit (rcode h) 0].
Proof. layout_by_bits. Qed.

Lemma qdcount_bytes : forall bo h,
  byte_bits (header_byte bo h 4) ++ byte_bits (header_byte bo h 5)
  = u16_bits bo (qdcount h).
Proof. layout_by_bits. Qed.

Lemma ancount_bytes : forall bo h,
  byte_bits (header_byte bo h 6) ++ byte_bits (header_byte bo h 7)
  = u16_bits bo (ancount h).
Proof. layout_by_bits. Qed.

Lemma nscount_bytes : forall bo h,
  byte_bits (header_byte bo h 8) ++ byte_bits (header_byte bo h 9)
  = u16_bits bo (nscount h).
Proof. layout_by_bits. Qed.

Lemma arcount_bytes : forall bo h,
  byte_bits (header_byte bo h 10) ++ byte_bits (header_byte bo h 11)
  = u16_bits bo (arcount h).
Proof. layout_by_bits. Qed.

(** C8: the header is 12 bytes, 96 bits: the 16-bit transaction id, the
    first flags byte QR(1) Opcode(4) AA(1) TC(1) RD(1) from the most
    significant bit down, a second flags byte, and the four 16-bit
    counts QDCOUNT, ANCOUNT, NSCOUNT, ARCOUNT. *)
Theorem header_is_twelve_bytes_bit_exact (bo : byte_order) (h : dns_header) :
  sizeof_header bo = 12 /\
  total_bits bo = 96 /\
  length (header_bytes bo h) = 12%nat /\
  byte_bits (header_byte bo h 0) ++ byte_bits (header_byte bo h 1)
    = u16_bits bo (qid h) /\
  byte_bits (header_byte bo h 2)
    = [Z.testbit (qr h) 0;
       Z.testbit (opcode h) 3; Z.testbit (opcode h) 2;
       Z.testbit (opcode h) 1; Z.testbit (opcode h) 0;
       Z.testbit (aa h) 0; Z.testbit (tc h) 0; Z.testbit (rd h) 0] /\
  byte_bits (header_byte bo h 3)
    = [Z.testbit (ra h) 0; Z.testbit (cd h) 0;
       Z.testbit (ad h) 0; Z.testbit (z h) 0;
       Z.testbit (rcode h) 3; Z.testbit (rcode h) 2;
       Z.testbit (rcode h) 1; Z.testbit (rcode h) 0] /\
  byte_bits (header_byte bo h 4) ++ byte_bits (header_byte bo h 5)
    = u16_bits bo (qdcount h) /\
  byte_bits (header_byte bo h 6) ++ byte_bits (header_byte bo h 7)
    = u16_bits bo (ancount h) /\
  byte_bits (header_byte bo h 8) ++ byte_bits (header_byte bo h 9)
    = u16_bits bo (nscount h) /\
  byte_bits (header_byte bo h 10) ++ byte_bits (header_byte bo h 11)
    = u16_bits bo (arcount h).
Proof.
  repeat split;
    auto using sizeof_header_12, total_bits_96, header_bytes_length,
      qid_bytes, flags1_bits, flags2_bits, qdcount_bytes, ancount_bytes,
      nscount_bytes, arcount_bytes.
Qed.

Lemma flags2_spec_bits h :
  byte_bits (flags2_spec h)
  = [Z.testbit (ra h) 0; Z.testbit (z h) 0;
     Z.testbit (ad h) 0; Z.testbit (cd h) 0;
     Z.testbit (rcode h) 3; Z.testbit (rcode h) 2;
     Z.testbit (rcode h) 1; Z.testbit (rcode h) 0].
Proof. expose; bit_norm; reflexivity. Qed.

(** C1: what the declaration gives for the second flags byte.  On both
    byte orders the bits are, from the most significant down, RA, CD, AD,
    Z and the four RCODE bits, so the byte is the same on every host; it
    is the byte of the order RA, Z, AD, CD, RCODE exactly when [z] and
    [cd] carry the same bit.  A header with only [cd] set has 0x40 in
    that byte, where the order RA, Z, AD, CD, RCODE has 0x10. *)
Theorem flags2_layout_swaps_z_and_cd :
  (forall bo h,
      byte_bits (header_byte bo h 3)
      = [Z.testbit (ra h) 0; Z.testbit (cd h) 0;
         Z.testbit (ad h) 0; Z.testbit (z h) 0;
         Z.testbit (rcode h) 3; Z.testbit (rcode h) 2;
         Z.testbit (rcode h) 1; Z.testbit (rcode h) 0]) /\
  (forall bo h, header_byte BIG_ENDIAN h 3 = header_byte bo h 3) /\
  (forall bo h,
      byte_bits (header_byte bo h 3) = byte_bits (flags2_spec h)
      <-> Z.testbit (z h) 0 = Z.testbit (cd h) 0) /\
  header_byte BIG_ENDIAN cd_only_header 3 = 0x40 /\
  header_byte LITTLE_ENDIAN cd_only_header 3 = 0x40 /\
  flags2_spec cd_only_header = 0x10.
Proof.
  split; [exact flags2_bits|].
  split.
  { intros bo h. apply byte_bits_inj; auto using header_byte_range.
    rewrite !flags2_bits. reflexivity. }
  split.
  { intros bo h. rewrite flags2_bits, flags2_spec_bits. split.
    - intros [= H _]. by symmetry.
    - intros ->. reflexivity. }
  repeat split.
Qed.

End HeaderLayout.

(** ** Response codes and record types *)

Section Tables.
Import Rcode DnsType.

Lemma all_rcodes_complete c : In c all_rcodes.
Proof. destruct c; cbn; tauto. Qed.

Lemma all_rcodes_nodup : NoDup all_rcodes.
Proof. apply (bool_decide_unpack _); vm_compute; reflexivity. Qed.

(** C9: for each aliased query type A, NS, SOA, PTR, MX, TXT, AAAA, SRV,
    TLSA, SPF and ANY the wire type code equals the value of the request
    type, whatever values [rdns.h] gives the request types. *)
Theorem wire_type_code_is_request_value
    (request_value : rdns_request_type -> Z) :
  (forall t, dns_type_value request_value (wire_type t) = request_value t) /\
  (forall t, In t all_request_types) /\
  length all_request_types = 11%nat /\
  (forall w, is_alias w = true <-> exists t, wire_type t = w).
Proof.
  split; [intros []; reflexivity|].
  split; [intros []; cbn; tauto|].
  split; [reflexivity|].
  intros w; split.
  - destruct w; cbn; try discriminate; intros _;
      first [ by exists RDNS_REQUEST_A | by exists RDNS_REQUEST_NS
            | by exists RDNS_REQUEST_SOA | by exists RDNS_REQUEST_PTR
            | by exists RDNS_REQUEST_MX | by exists RDNS_REQUEST_TXT
            | by exists RDNS_REQUEST_AAAA | by exists RDNS_REQUEST_SRV
            | by exists RDNS_REQUEST_TLSA | by exists RDNS_REQUEST_SPF
            | by exists RDNS_REQUEST_ANY ].
  - intros [[] <-]; reflexivity.
Qed.

End Tables.

(** ** TCP framing *)

Section TcpFraming.
Import Header Tcp.

Variable bo : byte_order.

Ltac zdm := Z.div_mod_to_equations; lia.

Lemma u16_mem_of_mem a b :
  u16_mem bo (u16_of_mem bo (a, b)) = (a mod 256, b mod 256).
Proof. destruct bo; cbn [u16_mem u16_of_mem fst snd]; f_equal; zdm. Qed.





Lemma u16_mem_htons v :
  u16_mem bo (htons bo v) = (v / 256 mod 256, v mod 256).
Proof. unfold htons. rewrite u16_mem_of_mem. f_equal; zdm. Qed.

Lemma entry_bytes_make_entry msg :
  fits msg -> entry_bytes bo (make_entry bo msg) = frame msg.
Proof.
  unfold fits, entry_bytes, make_entry, frame, wrap16. intros Hfit.
  cbn [next_write_size write_buf].
  rewrite u16_mem_htons. cbn [fst snd].
  rewrite (Z.mod_small (Z.of_nat (length msg)) 65536) by lia.
  reflexivity.
Qed.


(** *** The write path *)











(** *** The read path *)






















End TcpFraming.




(** ** Request life cycle *)

Section LifeCycle.
Import ReqState Rcode Resolver.

Implicit Types (σ : rstate) (q : rdns_request) (r c : nat) (k : Z).

(** Case analysis on whether the request looked up is the one the step
    has written, or freed. *)
Ltac at_request r r0 :=
  rewrite lookup_insert; destruct (decide (r = r0)) as [<- | ?].
Ltac at_freed r r0 :=
  rewrite lookup_delete; destruct (decide (r = r0)) as [<- | ?].

Lemma index_insert chs c ch c' k :
  index (<[c := ch]> chs) c' k
  = if decide (c = c') then requests ch !! k else index chs c' k.
Proof.
  unfold index. rewrite lookup_insert. by destruct (decide (c = c')).
Qed.

Lemma index_deregister q done chs c' k :
  index (deregister q done chs) c' k
  = if decide (io q = Some c' /\ id q = k) then None else index chs c' k.
Proof.
  unfold deregister, index. destruct (io q) as [c|].
  - rewrite lookup_alter.
    destruct (decide (c = c')) as [-> | Hne].
    + destruct (chs !! c') as [ch|]; cbn.
      * rewrite lookup_delete.
        destruct (decide (id q = k)); destruct (decide _) as [[_ ?] | Hn];
          try done. exfalso; apply Hn; by split.
      * by destruct (decide _).
    + destruct (decide _) as [[[= ?] _] | _]; done.
  - destruct (decide _) as [[[=] _] | _]; done.
Qed.

Lemma index_alter_insert chs c k r c' k' :
  is_Some (chs !! c) ->
  index (alter (fun ch => {| flags := flags ch;
                             requests := <[k := r]> (requests ch);
                             uses := uses ch |}) c chs) c' k'
  = if decide (c = c' /\ k = k') then Some r else index chs c' k'.
Proof.
  intros [ch Hch]. unfold index. rewrite lookup_alter.
  destruct (decide (c = c')) as [-> | Hne].
  - rewrite Hch. cbn. rewrite lookup_insert.
    destruct (decide (k = k')); destruct (decide _) as [[_ ?] | Hn];
      try done. exfalso; apply Hn; by split.
  - destruct (decide _) as [[? _] | _]; done.
Qed.

Lemma invocations_snoc r r' code log :
  invocations r (log ++ [(r', code)])
  = (invocations r log + if decide (r' = r) then 1 else 0)%nat.
Proof.
  unfold invocations. rewrite List.filter_app, length_app. cbn.
  destruct (Nat.eqb_spec r' r); destruct (decide (r' = r)); done.
Qed.

Lemma registered_not_terminal s :
  is_registered s = true -> is_terminal s = false.
Proof. by destruct s. Qed.

Lemma terminal_not_registered s :
  is_terminal s = true -> is_registered s = false.
Proof. by destruct s. Qed.

Lemma consistent_init : consistent rstate_init.
Proof.
  split; cbn; intros; try done;
    try match goal with H : ∅ !! _ = Some _ |- _ => by rewrite lookup_empty in H end.
Qed.

(** Two requests registered under one key of one channel are the same. *)
Lemma index_owner σ r q c :
  consistent σ -> heap σ !! r = Some q -> is_terminal (state q) = false ->
  io q = Some c ->
  index (channels σ) c (id q) = Some r.
Proof.
  intros Hc Hq Hterm Hio.
  destruct (is_registered (state q)) eqn:Hreg.
  - destruct (index_complete σ Hc r q Hq Hreg) as (c' & Hio' & Hidx).
    congruence.
  - pose proof (unregistered_io σ Hc r q Hq Hreg Hterm). congruence.
Qed.

Lemma consistent_finish σ r q s code :
  consistent σ ->
  heap σ !! r = Some q ->
  is_terminal (state q) = false ->
  is_terminal s = true ->
  (s = RDNS_REQUEST_ERROR -> is_failure code = true) ->
  consistent (finish r q s code σ).
Proof.
  intros Hc Hq Hlive Hs Hcode. split; cbn [finish heap channels fired released next_request].
  - intros c k r0. rewrite index_deregister.
    destruct (decide _) as [_ | Hn]; [done|]. intros Hidx.
    destruct (index_sound σ Hc c k r0 Hidx) as (q0 & Hq0 & Hid & Hio & Hreg).
    exists q0. rewrite lookup_insert_ne; [done|].
    intros <-. simplify_eq. by apply Hn.
  - intros r0 q0. at_request r r0.
    + intros [= <-]. cbn. intros Hreg.
      by rewrite (terminal_not_registered s Hs) in Hreg.
    + intros Hq0 Hreg.
      destruct (index_complete σ Hc r0 q0 Hq0 Hreg) as (c & Hio & Hidx).
      exists c. split; [done|]. rewrite index_deregister.
      destruct (decide _) as [[Hio' Hid] | _]; [|done].
      pose proof (index_owner σ r q c Hc Hq Hlive Hio') as Hown.
      rewrite Hid in Hown. congruence.
  - intros r0 q0. at_request r r0.
    + intros [= <-]. cbn. congruence.
    + apply (unregistered_io σ Hc).
  - intros r0 q0. rewrite lookup_insert, invocations_snoc.
    destruct (decide (r = r0)) as [<- | Hne].
    + intros [= <-]. cbn. rewrite Hs.
      rewrite (fired_live σ Hc r q Hq), Hlive. reflexivity.
    + intros Hq0. rewrite (fired_live σ Hc r0 q0 Hq0). lia.
  - intros r0. rewrite lookup_insert, invocations_snoc.
    destruct (decide (r = r0)) as [<- | Hne]; [done|].
    intros H0. rewrite (fired_dead σ Hc r0 H0). lia.
  - intros r0 q0. at_request r r0.
    + intros [= <-]. cbn. intros ->. exists code.
      split; [apply in_or_app; right; by left | by apply Hcode].
    + intros Hq0 Herr.
      destruct (error_code σ Hc r0 q0 Hq0 Herr) as (code0 & Hin & Hf).
      exists code0. split; [apply in_or_app; by left | done].
  - intros r0 q0. at_request r r0.
    + intros _. by apply (heap_fresh σ Hc r q).
    + apply (heap_fresh σ Hc).
  - apply (released_fresh σ Hc).
  - intros r0 Hin. rewrite lookup_insert_ne; [by apply (released_dead σ Hc)|].
    intros <-. pose proof (released_dead σ Hc r Hin). congruence.
Qed.


Lemma consistent_update σ r q q' :
  consistent σ ->
  heap σ !! r = Some q ->
  id q' = id q -> io q' = io q ->
  is_registered (state q') = is_registered (state q) ->
  is_terminal (state q) = false -> is_terminal (state q') = false ->
  consistent (with_heap σ (<[r := q']> (heap σ))).
Proof.
  intros Hc Hq Hid Hio Hreg Hlive Hlive'.
  split; cbn [with_heap heap channels fired released next_request].
  - intros c k r0 Hidx.
    destruct (index_sound σ Hc c k r0 Hidx) as (q0 & Hq0 & Hid0 & Hio0 & Hreg0).
    rewrite lookup_insert. destruct (decide (r = r0)) as [<- | Hne].
    + simplify_eq. exists q'. repeat split; congruence.
    + by exists q0.
  - intros r0 q0. at_request r r0.
    + intros [= <-] Hreg'. rewrite Hid, Hio.
      apply (index_complete σ Hc r q Hq). congruence.
    + apply (index_complete σ Hc).
  - intros r0 q0. at_request r r0.
    + intros [= <-] Hreg' _. rewrite Hio.
      apply (unregistered_io σ Hc r q Hq); congruence.
    + apply (unregistered_io σ Hc).
  - intros r0 q0. at_request r r0.
    + intros [= <-]. rewrite Hlive', (fired_live σ Hc r q Hq), Hlive. done.
    + apply (fired_live σ Hc).
  - intros r0. at_request r r0; [done|]. apply (fired_dead σ Hc).
  - intros r0 q0. at_request r r0.
    + intros [= <-] Herr. rewrite Herr in Hlive'. done.
    + apply (error_code σ Hc).
  - intros r0 q0. at_request r r0.
    + intros _. by apply (heap_fresh σ Hc r q).
    + apply (heap_fresh σ Hc).
  - apply (released_fresh σ Hc).
  - intros r0 Hin. rewrite lookup_insert_ne; [by apply (released_dead σ Hc)|].
    intros <-. pose proof (released_dead σ Hc r Hin). congruence.
Qed.

Lemma consistent_open limit σ c fl :
  consistent σ -> consistent (step limit σ (EvOpen c fl)).
Proof.
  intros Hc. cbn [step].
  destruct (channels σ !! c) as [ch|] eqn:Hch; [done|].
  assert (forall c' k, index (<[c := {| flags := fl; requests := ∅; uses := 0 |}]>
                                (channels σ)) c' k = index (channels σ) c' k) as Hidx.
  { intros c' k. rewrite index_insert. destruct (decide (c = c')) as [<- | _]; [|done].
    cbn. rewrite lookup_empty. unfold index. by rewrite Hch. }
  split; cbn [heap channels fired released next_request].
  - intros c' k r. rewrite Hidx. apply (index_sound σ Hc).
  - intros r q Hq Hreg.
    destruct (index_complete σ Hc r q Hq Hreg) as (c' & Hio & Hi).
    exists c'. by rewrite Hidx.
  - apply (unregistered_io σ Hc).
  - apply (fired_live σ Hc).
  - apply (fired_dead σ Hc).
  - apply (error_code σ Hc).
  - apply (heap_fresh σ Hc).
  - apply (released_fresh σ Hc).
  - apply (released_dead σ Hc).
Qed.

Lemma heap_next_free σ : consistent σ -> heap σ !! next_request σ = None.
Proof.
  intros Hc. destruct (heap σ !! next_request σ) as [q|] eqn:H; [|done].
  pose proof (heap_fresh σ Hc _ _ H). lia.
Qed.

Lemma consistent_new limit σ qid :
  consistent σ -> consistent (step limit σ (EvNew qid)).
Proof.
  intros Hc. pose proof (heap_next_free σ Hc) as Hfree.
  split; cbn [step heap channels fired released next_request].
  - intros c k r Hidx.
    destruct (index_sound σ Hc c k r Hidx) as (q0 & Hq0 & ?).
    exists q0. rewrite lookup_insert_ne; [done|]. intros <-. congruence.
  - intros r q. rewrite lookup_insert.
    destruct (decide (next_request σ = r)) as [<- | Hne].
    + by intros [= <-].
    + apply (index_complete σ Hc).
  - intros r q. rewrite lookup_insert.
    destruct (decide (next_request σ = r)) as [<- | Hne].
    + by intros [= <-].
    + apply (unregistered_io σ Hc).
  - intros r q. rewrite lookup_insert.
    destruct (decide (next_request σ = r)) as [<- | Hne].
    + intros [= <-]. cbn. by apply (fired_dead σ Hc).
    + apply (fired_live σ Hc).
  - intros r. rewrite lookup_insert.
    destruct (decide (next_request σ = r)) as [<- | Hne]; [done|].
    apply (fired_dead σ Hc).
  - intros r q. rewrite lookup_insert.
    destruct (decide (next_request σ = r)) as [<- | Hne].
    + by intros [= <-].
    + apply (error_code σ Hc).
  - intros r q. rewrite lookup_insert.
    destruct (decide (next_request σ = r)) as [<- | Hne]; [lia|].
    intros Hq. pose proof (heap_fresh σ Hc r q Hq). lia.
  - intros r Hin. pose proof (released_fresh σ Hc r Hin). lia.
  - intros r Hin. pose proof (released_fresh σ Hc r Hin).
    rewrite lookup_insert_ne by lia. by apply (released_dead σ Hc).
Qed.

Lemma consistent_cancel σ r :
  consistent σ -> consistent (cancel r σ).
Proof.
  intros Hc. unfold cancel.
  destruct (heap σ !! r) as [q|] eqn:Hq; [|done].
  destruct (is_terminal (state q)) eqn:Hlive; [done|].
  split; cbn [heap channels fired released next_request].
  - intros c k r0. rewrite index_deregister.
    destruct (decide _) as [_ | Hn]; [done|]. intros Hidx.
    destruct (index_sound σ Hc c k r0 Hidx) as (q0 & Hq0 & Hid & Hio & Hreg).
    exists q0. rewrite lookup_delete_ne; [done|].
    intros <-. simplify_eq. by apply Hn.
  - intros r0 q0. at_freed r r0; [done|].
    intros Hq0 Hreg.
    destruct (index_complete σ Hc r0 q0 Hq0 Hreg) as (c & Hio & Hidx).
    exists c. split; [done|]. rewrite index_deregister.
    destruct (decide _) as [[Hio' Hid] | _]; [|done].
    pose proof (index_owner σ r q c Hc Hq Hlive Hio') as Hown.
    rewrite Hid in Hown. congruence.
  - intros r0 q0. at_freed r r0; [done|].
    apply (unregistered_io σ Hc).
  - intros r0 q0. at_freed r r0; [done|].
    apply (fired_live σ Hc).
  - intros r0. at_freed r r0.
    + intros _. by rewrite (fired_live σ Hc r q Hq), Hlive.
    + apply (fired_dead σ Hc).
  - intros r0 q0. at_freed r r0; [done|].
    apply (error_code σ Hc).
  - intros r0 q0. at_freed r r0; [done|].
    apply (heap_fresh σ Hc).
  - intros r0 [<- | Hin].
    + by apply (heap_fresh σ Hc r q).
    + by apply (released_fresh σ Hc).
  - intros r0 Hin. at_freed r r0; [done|].
    destruct Hin as [-> | Hin]; [done|]. by apply (released_dead σ Hc).
Qed.


Lemma rdns_register_inr σ σ' r c :
  rdns_register r c σ = inr σ' ->
  exists q ch,
    heap σ !! r = Some q /\ state q = RDNS_REQUEST_NEW /\
    channels σ !! c = Some ch /\ requests ch !! id q = None /\
    σ' = {| heap := <[r := {| id := id q; io := Some c;
                              state := RDNS_REQUEST_REGISTERED;
                              retransmits := retransmits q;
                              reply := reply q |}]> (heap σ);
            channels := <[c := {| flags := flags ch;
                                  requests := <[id q := r]> (requests ch);
                                  uses := uses ch |}]> (channels σ);
            next_request := next_request σ;
            fired := fired σ; released := released σ |}.
Proof.
  unfold rdns_register. intros H.
  destruct (heap σ !! r) as [q|]; [|done].
  destruct (state q) eqn:Hst; try done.
  destruct (channels σ !! c) as [ch|]; [|done].
  destruct (requests ch !! id q) eqn:Hk; [done|].
  exists q, ch. by simplify_eq.
Qed.

Lemma consistent_register σ σ' r c :
  consistent σ -> rdns_register r c σ = inr σ' -> consistent σ'.
Proof.
  intros Hc Hreg.
  destruct (rdns_register_inr σ σ' r c Hreg)
    as (q & ch & Hq & Hst & Hch & Hfree & ->).
  assert (forall c' k,
    index (<[c := {| flags := flags ch;
                     requests := <[id q := r]> (requests ch);
                     uses := uses ch |}]> (channels σ)) c' k
    = if decide (c = c' /\ id q = k) then Some r else index (channels σ) c' k)
    as Hidx.
  { intros c' k. rewrite index_insert. unfold index.
    destruct (decide (c = c')) as [<- | Hne].
    - rewrite Hch. cbn. rewrite lookup_insert.
      destruct (decide (id q = k)); destruct (decide _) as [[_ ?] | Hn];
        try done. exfalso; apply Hn; by split.
    - destruct (decide _) as [[? _] | _]; done. }
  assert (index (channels σ) c (id q) = None) as Hfree'
    by (unfold index; by rewrite Hch).
  split; cbn [heap channels fired released next_request].
  - intros c' k r0. rewrite Hidx.
    destruct (decide _) as [[<- <-] | Hn].
    + intros [= <-]. eexists. rewrite lookup_insert_eq. by repeat split.
    + intros Hi.
      destruct (index_sound σ Hc c' k r0 Hi) as (q0 & Hq0 & Hid & Hio & Hr).
      exists q0. rewrite lookup_insert_ne; [done|].
      intros <-. simplify_eq. by rewrite Hst in Hr.
  - intros r0 q0. at_request r r0.
    + intros [= <-] _. exists c. cbn. split; [done|].
      rewrite Hidx. by rewrite decide_True.
    + intros Hq0 Hr.
      destruct (index_complete σ Hc r0 q0 Hq0 Hr) as (c0 & Hio & Hi).
      exists c0. split; [done|]. rewrite Hidx.
      destruct (decide _) as [[<- Hid] | _]; [|done].
      rewrite <- Hid in Hi. congruence.
  - intros r0 q0. at_request r r0.
    + by intros [= <-].
    + apply (unregistered_io σ Hc).
  - intros r0 q0. at_request r r0.
    + intros [= <-]. cbn. by rewrite (fired_live σ Hc r q Hq), Hst.
    + apply (fired_live σ Hc).
  - intros r0. at_request r r0; [done|]. apply (fired_dead σ Hc).
  - intros r0 q0. at_request r r0.
    + by intros [= <-].
    + apply (error_code σ Hc).
  - intros r0 q0. at_request r r0.
    + intros _. by apply (heap_fresh σ Hc r q).
    + apply (heap_fresh σ Hc).
  - apply (released_fresh σ Hc).
  - intros r0 Hin. rewrite lookup_insert_ne; [by apply (released_dead σ Hc)|].
    intros <-. pose proof (released_dead σ Hc r Hin). congruence.
Qed.

Lemma waiting_Some σ c qid r q :
  consistent σ -> waiting σ c qid = Some (r, q) ->
  index (channels σ) c qid = Some r /\ heap σ !! r = Some q /\
  state q = RDNS_REQUEST_WAIT_REPLY /\ id q = qid /\ io q = Some c.
Proof.
  intros Hc. unfold waiting.
  destruct (index (channels σ) c qid) as [r0|] eqn:Hi; [|done].
  destruct (heap σ !! r0) as [q0|] eqn:Hq0; [|done].
  destruct (state q0) eqn:Hst; try done. intros [= <- <-].
  destruct (index_sound σ Hc c qid r0 Hi) as (q1 & Hq1 & Hid & Hio & _).
  simplify_eq. by repeat split.
Qed.

Lemma consistent_truncated limit σ c qid c' :
  consistent σ -> consistent (step limit σ (EvTruncated c qid c')).
Proof.
  intros Hc. cbn [step].
  destruct (waiting σ c qid) as [[r q]|] eqn:Hw; [|done].
  destruct (channels σ !! c') as [ch'|] eqn:Hch'; [|done].
  destruct (IS_CHANNEL_TCP ch' && _) eqn:Hok; [|done].
  apply andb_true_iff in Hok as [_ Hfree%bool_decide_eq_true].
  destruct (waiting_Some σ c qid r q Hc Hw) as (Hi & Hq & Hst & Hid & Hio).
  assert (index (channels σ) c' (id q) = None) as Hfree'
    by (unfold index; rewrite Hch'; congruence).
  assert (forall c0 k,
    index (alter (fun ch => {| flags := flags ch;
                               requests := <[id q := r]> (requests ch);
                               uses := uses ch |})
             c' (deregister q false (channels σ))) c0 k
    = if decide (c' = c0 /\ id q = k) then Some r
      else if decide (io q = Some c0 /\ id q = k) then None
           else index (channels σ) c0 k) as Hidx.
  { intros c0 k. rewrite index_alter_insert, index_deregister; [done|].
    unfold deregister. rewrite Hio, lookup_alter.
    destruct (decide (c = c')) as [-> | _]; rewrite Hch'; by eexists. }
  split; cbn [heap channels fired released next_request].
  - intros c0 k r0. rewrite Hidx.
    destruct (decide _) as [[<- <-] | Hn1].
    { intros [= <-]. eexists. rewrite lookup_insert_eq. by repeat split. }
    destruct (decide _) as [_ | Hn2]; [done|]. intros Hi0.
    destruct (index_sound σ Hc c0 k r0 Hi0) as (q0 & Hq0 & Hid0 & Hio0 & Hr).
    exists q0. rewrite lookup_insert_ne; [done|].
    intros <-. simplify_eq. by apply Hn2.
  - intros r0 q0. at_request r r0.
    + intros [= <-] _. exists c'. cbn. split; [done|].
      rewrite Hidx. by rewrite decide_True.
    + intros Hq0 Hr.
      destruct (index_complete σ Hc r0 q0 Hq0 Hr) as (c0 & Hio0 & Hi0).
      exists c0. split; [done|]. rewrite Hidx.
      destruct (decide _) as [[<- Hk] | _].
      { rewrite <- Hk in Hi0. congruence. }
      destruct (decide _) as [[Hio' Hk] | _]; [|done].
      rewrite <- Hk in Hi0. simplify_eq.
  - intros r0 q0. at_request r r0.
    + by intros [= <-].
    + apply (unregistered_io σ Hc).
  - intros r0 q0. at_request r r0.
    + intros [= <-]. cbn. by rewrite (fired_live σ Hc r q Hq), Hst.
    + apply (fired_live σ Hc).
  - intros r0. at_request r r0; [done|]. apply (fired_dead σ Hc).
  - intros r0 q0. at_request r r0.
    + by intros [= <-].
    + apply (error_code σ Hc).
  - intros r0 q0. at_request r r0.
    + intros _. by apply (heap_fresh σ Hc r q).
    + apply (heap_fresh σ Hc).
  - apply (released_fresh σ Hc).
  - intros r0 Hin. rewrite lookup_insert_ne; [by apply (released_dead σ Hc)|].
    intros <-. pose proof (released_dead σ Hc r Hin). congruence.
Qed.

Lemma consistent_step limit σ ev :
  consistent σ -> consistent (step limit σ ev).
Proof.
  intros Hc. destruct ev as [c fl | qid | r code | r | r c | r | r
                            | c qid code | c qid c' | c qid | r | r | r].
  - by apply consistent_open.
  - by apply consistent_new.
  - cbn [step]. destruct (heap σ !! r) as [q|] eqn:Hq; [|done].
    destruct (state q) eqn:Hst; try done.
    apply (consistent_update σ r q); try done; cbn; by rewrite Hst.
  - cbn [step]. destruct (heap σ !! r) as [q|] eqn:Hq; [|done].
    destruct (state q) eqn:Hst; try done.
    apply consistent_finish; try done. by rewrite Hst.
  - cbn [step]. destruct (rdns_register r c σ) as [e | σ'] eqn:Hr; [done|].
    by apply (consistent_register σ σ' r c).
  - cbn [step]. destruct (heap σ !! r) as [q|] eqn:Hq; [|done].
    destruct (state q) eqn:Hst; try done;
      apply (consistent_update σ r q); try done; cbn; by rewrite Hst.
  - cbn [step]. destruct (heap σ !! r) as [q|] eqn:Hq; [|done].
    destruct (state q) eqn:Hst; try done.
    apply (consistent_update σ r q); try done; cbn; by rewrite Hst.
  - cbn [step]. destruct (waiting σ c qid) as [[r q]|] eqn:Hw; [|done].
    destruct (waiting_Some σ c qid r q Hc Hw) as (_ & Hq & Hst & _).
    apply consistent_finish; try done. by rewrite Hst.
  - by apply consistent_truncated.
  - cbn [step]. destruct (waiting σ c qid) as [[r q]|] eqn:Hw; [|done].
    destruct (waiting_Some σ c qid r q Hc Hw) as (_ & Hq & Hst & _).
    apply consistent_finish; try done. by rewrite Hst.
  - cbn [step]. destruct (heap σ !! r) as [q|] eqn:Hq; [|done].
    destruct (state q) eqn:Hst; try done.
    destruct (retransmits q <? limit).
    + apply (consistent_update σ r q); try done; cbn; by rewrite Hst.
    + apply consistent_finish; try done. by rewrite Hst.
  - cbn [step]. destruct (heap σ !! r) as [q|] eqn:Hq; [|done].
    destruct (is_registered (state q)) eqn:Hreg; [|done].
    apply consistent_finish; try done. by apply registered_not_terminal.
  - by apply consistent_cancel.
Qed.

Lemma consistent_run limit evs : forall σ,
  consistent σ -> consistent (run limit evs σ).
Proof.
  induction evs as [|ev evs IH]; intros σ Hc; [done|].
  cbn. apply IH. by apply consistent_step.
Qed.


Lemma reachable_consistent limit evs : consistent (run limit evs rstate_init).
Proof. apply consistent_run, consistent_init. Qed.

Lemma invocations_witness r log :
  (0 < invocations r log)%nat -> exists code, In (r, code) log.
Proof.
  unfold invocations. induction log as [|[r0 code0] log IH]; cbn; [lia|].
  destruct (Nat.eqb_spec r0 r) as [-> | Hne]; cbn.
  - intros _. exists code0. by left.
  - intros H. destruct (IH H) as [code Hin]. exists code. by right.
Qed.

Lemma terminal_unindexed σ r q :
  consistent σ -> heap σ !! r = Some q -> is_terminal (state q) = true ->
  forall c k, index (channels σ) c k <> Some r.
Proof.
  intros Hc Hq Hterm c k Hi.
  destruct (index_sound σ Hc c k r Hi) as (q0 & Hq0 & _ & _ & Hreg).
  simplify_eq. rewrite (terminal_not_registered _ Hterm) in Hreg. done.
Qed.

(** C2: a request that has reached REPLIED or ERROR is in no channel's
    index and its continuation has been invoked exactly once; no
    continuation is ever invoked twice; the continuation of a request
    cancelled before a terminal state is never invoked. *)
Theorem terminal_deregisters_and_fires_once (limit : Z) (evs : list event) :
  let σ := run limit evs rstate_init in
  (forall r q,
      heap σ !! r = Some q -> is_terminal (state q) = true ->
      invocations r (fired σ) = 1%nat /\
      forall c k, index (channels σ) c k <> Some r) /\
  (forall r q,
      heap σ !! r = Some q -> is_terminal (state q) = false ->
      invocations r (fired σ) = 0%nat) /\
  (forall r, (invocations r (fired σ) <= 1)%nat) /\
  (forall r,
      In r (released σ) ->
      invocations r (fired σ) = 0%nat /\
      forall c k, index (channels σ) c k <> Some r).
Proof.
  intros σ. pose proof (reachable_consistent limit evs) as Hc. fold σ in Hc.
  split; [|split; [|split]].
  - intros r q Hq Hterm. split.
    + by rewrite (fired_live σ Hc r q Hq), Hterm.
    + by apply (terminal_unindexed σ r q).
  - intros r q Hq Hlive. by rewrite (fired_live σ Hc r q Hq), Hlive.
  - intros r. destruct (heap σ !! r) as [q|] eqn:Hq.
    + rewrite (fired_live σ Hc r q Hq). destruct (is_terminal (state q)); lia.
    + rewrite (fired_dead σ Hc r Hq). lia.
  - intros r Hin. pose proof (released_dead σ Hc r Hin) as Hdead. split.
    + by apply (fired_dead σ Hc).
    + intros c k Hi.
      destruct (index_sound σ Hc c k r Hi) as (q0 & Hq0 & _). congruence.
Qed.

(** C5: the index of a channel has one request per transaction id, two
    requests registered on one channel differ in their ids, and
    registering an id that is taken is refused as a contract violation,
    which is fatal only and leaves the resolver as it was. *)
Theorem channel_ids_unique_duplicates_refused (limit : Z) (evs : list event) :
  let σ := run limit evs rstate_init in
  (forall c k r,
      index (channels σ) c k = Some r ->
      exists q, heap σ !! r = Some q /\ id q = k /\ io q = Some c) /\
  (forall r1 r2 q1 q2,
      heap σ !! r1 = Some q1 -> heap σ !! r2 = Some q2 ->
      is_registered (state q1) = true -> is_registered (state q2) = true ->
      io q1 = io q2 -> r1 <> r2 -> id q1 <> id q2) /\
  (forall r c q r',
      heap σ !! r = Some q -> state q = RDNS_REQUEST_NEW ->
      index (channels σ) c (id q) = Some r' ->
      rdns_register r c σ = inl ContractViolation /\
      fatal_only ContractViolation = true /\
      step limit σ (EvRegister r c) = σ /\
      index (channels (step limit σ (EvRegister r c))) c (id q) = Some r').
Proof.
  intros σ. pose proof (reachable_consistent limit evs) as Hc. fold σ in Hc.
  split; [|split].
  - intros c k r Hi.
    destruct (index_sound σ Hc c k r Hi) as (q & Hq & Hid & Hio & _).
    by exists q.
  - intros r1 r2 q1 q2 Hq1 Hq2 Hr1 Hr2 Hio Hne Hid.
    destruct (index_complete σ Hc r1 q1 Hq1 Hr1) as (c1 & Hio1 & Hi1).
    destruct (index_complete σ Hc r2 q2 Hq2 Hr2) as (c2 & Hio2 & Hi2).
    rewrite Hid in Hi1. congruence.
  - intros r c q r' Hq Hst Hi.
    assert (rdns_register r c σ = inl ContractViolation) as Hreg.
    { unfold rdns_register. rewrite Hq, Hst. unfold index in Hi.
      destruct (channels σ !! c) as [ch|]; [|done]. by rewrite Hi. }
    split; [exact Hreg|]. split; [reflexivity|].
    cbn [step]. rewrite Hreg. by split.
Qed.

(** C7: the result codes are exactly the fourteen of the [dns_rcodes]
    table, the ones the specification names; a request that ends, in
    REPLIED or in ERROR, has had its continuation invoked with one of
    them, a failure code when it ended in ERROR. *)
Theorem fourteen_codes_through_one_continuation (limit : Z) (evs : list event) :
  (forall code, In code all_rcodes) /\
  NoDup all_rcodes /\
  length all_rcodes = 14%nat /\
  map surfaced_name all_rcodes = surfaced_codes /\
  (forall code, (String.length (dns_rcodes code) < 32)%nat) /\
  (let σ := run limit evs rstate_init in
   forall r q,
     heap σ !! r = Some q -> is_terminal (state q) = true ->
     exists code,
       In (r, code) (fired σ) /\ In code all_rcodes /\
       (state q = RDNS_REQUEST_ERROR -> is_failure code = true)).
Proof.
  split; [apply all_rcodes_complete|].
  split; [apply all_rcodes_nodup|].
  split; [reflexivity|].
  split; [reflexivity|].
  split; [intros []; cbn; lia|].
  intros σ r q Hq Hterm.
  pose proof (reachable_consistent limit evs) as Hc. fold σ in Hc.
  destruct (state q) eqn:Hst; try done.
  - destruct (invocations_witness r (fired σ)) as [code Hin].
    { rewrite (fired_live σ Hc r q Hq), Hst. cbn. lia. }
    exists code. split; [done|]. split; [apply all_rcodes_complete | done].
  - destruct (error_code σ Hc r q Hq Hst) as (code & Hin & Hf).
    exists code. split; [done|]. split; [apply all_rcodes_complete | done].
Qed.

End LifeCycle.

Lemma terminal_deregisters_and_fires_once_witness :
  let σ := Resolver.run 3 Resolver.sample_events Resolver.rstate_init in
  Resolver.invocations 0 (Resolver.fired σ) = 1%nat /\
  Resolver.index (Resolver.channels σ) 0 7 <> Some 0%nat /\
  Resolver.invocations 1 (Resolver.fired σ) = 0%nat.
Proof.
  intros σ.
  destruct (terminal_deregisters_and_fires_once 3 Resolver.sample_events)
    as (Hterm & _ & _ & Hrel).
  fold σ in Hterm, Hrel.
  destruct (Hterm 0%nat
              {| Resolver.id := 7; Resolver.io := Some 0%nat;
                 Resolver.state := ReqState.RDNS_REQUEST_REPLIED;
                 Resolver.retransmits := 1; Resolver.reply := None |}
              ltac:(vm_compute; reflexivity) ltac:(reflexivity)) as [H1 H2].
  destruct (Hrel 1%nat ltac:(vm_compute; auto)) as [H3 _].
  exact (conj H1 (conj (H2 0%nat 7) H3)).
Defined.

Lemma channel_ids_unique_duplicates_refused_witness :
  let σ := Resolver.run 3 (take 8 Resolver.sample_events) Resolver.rstate_init in
  Resolver.rdns_register 2 0 σ = inl Resolver.ContractViolation /\
  Resolver.step 3 σ (Resolver.EvRegister 2 0) = σ.
Proof.
  intros σ.
  destruct (channel_ids_unique_duplicates_refused 3 (take 8 Resolver.sample_events))
    as (_ & _ & Hdup).
  fold σ in Hdup.
  destruct (Hdup 2%nat 0%nat
              {| Resolver.id := 7; Resolver.io := None;
                 Resolver.state := ReqState.RDNS_REQUEST_NEW;
                 Resolver.retransmits := 0; Resolver.reply := None |}
              0%nat ltac:(vm_compute; reflexivity) ltac:(reflexivity)
              ltac:(vm_compute; reflexivity)) as (H1 & _ & H2 & _).
  exact (conj H1 H2).
Defined.

Lemma fourteen_codes_through_one_continuation_witness :
  let σ := Resolver.run 0 [Resolver.EvOpen 0 1; Resolver.EvNew 7;
                           Resolver.EvRegister 0 0; Resolver.EvQueue 0;
                           Resolver.EvSent 0; Resolver.EvTimeout 0]
             Resolver.rstate_init in
  exists code, In (0%nat, code) (Resolver.fired σ) /\ Rcode.is_failure code = true.
Proof.
  intros σ.
  destruct (fourteen_codes_through_one_continuation 0
              [Resolver.EvOpen 0 1; Resolver.EvNew 7;
               Resolver.EvRegister 0 0; Resolver.EvQueue 0;
               Resolver.EvSent 0; Resolver.EvTimeout 0])
    as (_ & _ & _ & _ & _ & Hfin).
  fold σ in Hfin.
  destruct (Hfin 0%nat
              {| Resolver.id := 7; Resolver.io := Some 0%nat;
                 Resolver.state := ReqState.RDNS_REQUEST_ERROR;
                 Resolver.retransmits := 0; Resolver.reply := None |}
              ltac:(vm_compute; reflexivity) ltac:(reflexivity))
    as (code & Hin & _ & Hfail).
  exists code. split; [exact Hin | by apply Hfail].
Defined.

(** ** Reading the header back *)

Section HeaderRoundTrip.
Import Header HeaderLoad.

Ltac zdm := Z.div_mod_to_equations; lia.

Lemma slot_of_total bo f : exists s, slot_of bo f = Some s.
Proof. destruct bo, f; eexists; reflexivity. Qed.

Lemma slot_of_fits bo f s :
  slot_of bo f = Some s ->
  s_field s = f /\ 0 <= lsb_pos bo s /\ lsb_pos bo s + width f <= 32 /\
  0 <= s_unit s < 3 /\ 0 < width f.
Proof.
  destruct bo, f; intros [= <-]; cbv; repeat split; congruence.
Qed.

Lemma testbit_place v w pos m :
  0 <= w -> 0 <= pos -> 0 <= m ->
  Z.testbit (place v w pos) m
  = (pos <=? m) && (m <? pos + w) && Z.testbit v (m - pos).
Proof.
  intros Hw Hpos Hm. unfold place.
  rewrite Z.shiftl_spec, Z.land_spec, Z.testbit_ones by lia.
  destruct (Z.leb_spec pos m) as [Hle | Hgt].
  - replace (0 <=? m - pos) with true by (symmetry; apply Z.leb_le; lia).
    replace (m - pos <? w) with (m <? pos + w)
      by (destruct (Z.ltb_spec m (pos + w)), (Z.ltb_spec (m - pos) w); lia).
    cbn [andb]. apply andb_comm.
  - rewrite Z.testbit_neg_r by lia. reflexivity.
Qed.

Lemma unit_fold_testbit bo h u m (l : list slot) :
  0 <= m ->
  Forall (fun s => 0 <= lsb_pos bo s) l ->
  Z.testbit
    (fold_right
       (fun s acc =>
          if s_unit s =? u
          then Z.lor (place (get h (s_field s)) (width (s_field s))
                        (lsb_pos bo s)) acc
          else acc) 0 l) m
  = existsb (fun s => covers bo s u m
                      && Z.testbit (get h (s_field s)) (m - lsb_pos bo s)) l.
Proof.
  intros Hm Hl. induction Hl as [|s l Hs Hl IH]; cbn [fold_right existsb].
  - apply Z.bits_0.
  - unfold covers at 1. destruct (s_unit s =? u); cbn [andb orb].
    + rewrite Z.lor_spec, IH, testbit_place; [reflexivity | | lia | lia].
      destruct (s_field s); cbn; lia.
    + exact IH.
Qed.

Lemma covered_once bo h (l : list slot) s n :
  In s l ->
  Forall (fun s' => apart bo s s' = true) l ->
  0 <= n < width (s_field s) ->
  existsb (fun s' => covers bo s' (s_unit s) (n + lsb_pos bo s)
                     && Z.testbit (get h (s_field s'))
                          (n + lsb_pos bo s - lsb_pos bo s')) l
  = Z.testbit (get h (s_field s)) n.
Proof.
  intros Hin Hapart Hn. apply eq_true_iff_eq. rewrite existsb_exists. split.
  - intros (s' & Hin' & Hc). apply andb_true_iff in Hc as [Hcov Hbit].
    rewrite Forall_forall in Hapart.
    pose proof (Hapart s' ltac:(by apply list_elem_of_In)) as Ha.
    unfold covers in Hcov. unfold apart in Ha.
    rewrite !andb_true_iff, Z.eqb_eq, Z.leb_le, Z.ltb_lt in Hcov.
    rewrite !orb_true_iff, bool_decide_eq_true, negb_true_iff,
      Z.eqb_neq, !Z.leb_le in Ha.
    destruct Hcov as [[Hu Hlo] Hhi].
    destruct Ha as [[[-> | Hne] | Hbefore] | Hafter]; try lia.
    by replace (n + lsb_pos bo s - lsb_pos bo s) with n in Hbit by lia.
  - intros Hbit. exists s. split; [exact Hin|].
    unfold covers. rewrite Z.eqb_refl. cbn [andb].
    replace (lsb_pos bo s <=? n + lsb_pos bo s) with true
      by (symmetry; apply Z.leb_le; lia).
    replace (n + lsb_pos bo s <? lsb_pos bo s + width (s_field s)) with true
      by (symmetry; apply Z.ltb_lt; lia).
    by replace (n + lsb_pos bo s - lsb_pos bo s) with n by lia.
Qed.

Lemma layout_nonneg bo : Forall (fun s => 0 <= lsb_pos bo s) (layout bo).
Proof. destruct bo; repeat constructor; cbv; congruence. Qed.

Lemma slot_of_apart bo f s :
  slot_of bo f = Some s ->
  In s (layout bo) /\ Forall (fun s' => apart bo s s' = true) (layout bo).
Proof.
  intros Hs. split.
  - unfold slot_of in Hs. by apply List.find_some in Hs as [? _].
  - apply Forall_forall. intros s' Hin%list_elem_of_In. revert s' Hin.
    apply forallb_forall.
    destruct bo, f; injection Hs as <-; vm_compute; reflexivity.
Qed.

Lemma member_bits bo h f s n :
  slot_of bo f = Some s -> 0 <= n < width f ->
  Z.testbit (unit_value bo h (s_unit s)) (n + lsb_pos bo s)
  = Z.testbit (get h f) n.
Proof.
  intros Hs Hn.
  destruct (slot_of_fits bo f s Hs) as (Hf & Hpos & _).
  destruct (slot_of_apart bo f s Hs) as [Hin Hapart].
  unfold unit_value.
  rewrite unit_fold_testbit by (lia || apply layout_nonneg).
  rewrite (covered_once bo h (layout bo) s n Hin Hapart) by (rewrite Hf; lia).
  by rewrite Hf.
Qed.


Lemma nth_header_bytes bo h i :
  (i < 12)%nat ->
  nth i (header_bytes bo h) 0 = header_byte bo h (Z.of_nat i).
Proof.
  intros Hi. unfold header_bytes.
  rewrite (nth_indep _ 0 (header_byte bo h (Z.of_nat 0)))
    by (rewrite length_map, length_seq, sizeof_header_12; lia).
  rewrite (map_nth (fun i => header_byte bo h (Z.of_nat i))).
  rewrite seq_nth by (rewrite sizeof_header_12; lia).
  reflexivity.
Qed.

Lemma header_byte_at bo h u k :
  0 <= k < 4 ->
  header_byte bo h (4 * u + k) = unit_byte bo (unit_value bo h u) k.
Proof.
  intros Hk. unfold header_byte. f_equal; [f_equal|]; zdm.
Qed.

Lemma unit_of_bytes_unit_byte bo v :
  unit_of_bytes bo (unit_byte bo v 0) (unit_byte bo v 1)
    (unit_byte bo v 2) (unit_byte bo v 3) = v mod 2 ^ 32.
Proof.
  unfold unit_of_bytes, unit_byte. change 255 with (Z.ones 8).
  destruct bo; rewrite !Z.land_ones, !Z.shiftr_div_pow2 by lia;
    cbn [Z.mul Z.sub Z.opp Z.add Pos.mul Pos.add Z.pos_sub Pos.succ
         Pos.pred_double];
    change (2 ^ 0) with 1; change (2 ^ 8) with 256;
    change (2 ^ 16) with 65536; change (2 ^ 24) with 16777216;
    change (2 ^ 32) with 4294967296; zdm.
Qed.

Lemma load_unit_header bo h u :
  0 <= u < 3 ->
  load_unit bo (header_bytes bo h) u = unit_value bo h u mod 2 ^ 32.
Proof.
  intros Hu. unfold load_unit. cbv zeta.
  rewrite !nth_header_bytes by lia.
  replace (Z.of_nat (Z.to_nat (4 * u))) with (4 * u + 0) by lia.
  replace (Z.of_nat (Z.to_nat (4 * u) + 1)) with (4 * u + 1) by lia.
  replace (Z.of_nat (Z.to_nat (4 * u) + 2)) with (4 * u + 2) by lia.
  replace (Z.of_nat (Z.to_nat (4 * u) + 3)) with (4 * u + 3) by lia.
  rewrite !header_byte_at by lia.
  apply unit_of_bytes_unit_byte.
Qed.

Lemma member_round_trip (bo : byte_order) (h : dns_header) (f : field) :
  load_member bo (header_bytes bo h) f = get h f mod 2 ^ width f.
Proof.
  destruct (slot_of_total bo f) as [s Hs].
  destruct (slot_of_fits bo f s Hs) as (Hf & Hpos & Hfit & Hu & Hw).
  unfold load_member. rewrite Hs, load_unit_header by exact Hu.
  rewrite <- !Z.land_ones by lia.
  apply Z.bits_inj'. intros n Hn.
  rewrite !Z.land_spec, Z.shiftr_spec, Z.land_spec, !Z.testbit_ones by lia.
  replace (0 <=? n) with true by (symmetry; apply Z.leb_le; lia).
  destruct (Z.ltb_spec n (width f)) as [Hlt | Hge].
  - replace (0 <=? n + lsb_pos bo s) with true by (symmetry; apply Z.leb_le; lia).
    replace (n + lsb_pos bo s <? 32) with true by (symmetry; apply Z.ltb_lt; lia).
    rewrite (member_bits bo h f s n Hs) by lia.
    by rewrite !andb_true_r.
  - by rewrite !andb_false_r.
Qed.


(** X1: a member written to the header and read back from its bytes is
    the value written, cut to the member's declared width; nothing of
    another member shows through. *)
Theorem load_member_header_bytes (bo : byte_order) (h : dns_header) (f : field) :
  load_member bo (header_bytes bo h) f = get h f mod 2 ^ width f.
Proof. apply member_round_trip. Qed.

Lemma get_load_header bo mem f :
  get (load_header bo mem) f = load_member bo mem f.
Proof. by destruct f. Qed.

Lemma header_ext (h1 h2 : dns_header) :
  (forall f, get h1 f = get h2 f) -> h1 = h2.
Proof.
  intros H. destruct h1, h2.
  f_equal;
    [ exact (H F_qid) | exact (H F_qr) | exact (H F_opcode) | exact (H F_aa)
    | exact (H F_tc) | exact (H F_rd) | exact (H F_ra) | exact (H F_cd)
    | exact (H F_ad) | exact (H F_z) | exact (H F_rcode)
    | exact (H F_qdcount) | exact (H F_ancount) | exact (H F_nscount)
    | exact (H F_arcount) ].
Qed.

(** X2: a header whose members all fit their widths survives the trip
    through memory: reading the twelve bytes back gives the same header,
    on either byte order. *)
Theorem load_header_header_bytes (bo : byte_order) (h : dns_header) :
  in_range h -> load_header bo (header_bytes bo h) = h.
Proof.
  intros Hr. apply header_ext. intros f.
  rewrite get_load_header, member_round_trip.
  apply Z.mod_small, Hr.
Qed.

Lemma get_set_member h f v g :
  get (set_member h f v) g = if decide (g = f) then v else get h g.
Proof. by destruct f, g. Qed.

(** X3: assigning one member changes what is read back for that member
    only: every other member reads as before the assignment. *)
Theorem set_member_touches_one (bo : byte_order) (h : dns_header)
    (f g : field) (v : Z) :
  load_member bo (header_bytes bo (set_member h f v)) g
  = if decide (g = f) then v mod 2 ^ width f
    else load_member bo (header_bytes bo h) g.
Proof.
  rewrite !member_round_trip, get_set_member.
  destruct (decide (g = f)) as [-> | _]; reflexivity.
Qed.

Lemma unit_value_ext bo h1 h2 u :
  (forall f, get h1 f mod 2 ^ width f = get h2 f mod 2 ^ width f) ->
  unit_value bo h1 u = unit_value bo h2 u.
Proof.
  intros H. unfold unit_value.
  induction (layout bo) as [|s l IH]; cbn [fold_right]; [reflexivity|].
  rewrite IH. destruct (s_unit s =? u); [|reflexivity].
  f_equal. unfold place.
  rewrite !Z.land_ones by (destruct (s_field s); cbn; lia).
  by rewrite H.
Qed.

(** X4: two headers have the same twelve bytes exactly when each member
    of one equals the same member of the other up to its declared width;
    in particular the bytes of a header in range determine the header. *)
Theorem header_bytes_determine_members (bo : byte_order) (h1 h2 : dns_header) :
  (header_bytes bo h1 = header_bytes bo h2
   <-> forall f, get h1 f mod 2 ^ width f = get h2 f mod 2 ^ width f) /\
  (in_range h1 -> in_range h2 ->
   header_bytes bo h1 = header_bytes bo h2 -> h1 = h2).
Proof.
  assert (header_bytes bo h1 = header_bytes bo h2
          -> forall f, get h1 f mod 2 ^ width f = get h2 f mod 2 ^ width f)
    as Hfwd.
  { intros Heq f.
    rewrite <- (member_round_trip bo h1 f), <- (member_round_trip bo h2 f).
    by rewrite Heq. }
  split; [split; [exact Hfwd|] |].
  - intros H. unfold header_bytes. apply map_ext. intros i.
    unfold header_byte. f_equal. by apply unit_value_ext.
  - intros Hr1 Hr2 Heq. apply header_ext. intros f.
    rewrite <- (Z.mod_small (get h1 f) (2 ^ width f)) by apply Hr1.
    rewrite <- (Z.mod_small (get h2 f) (2 ^ width f)) by apply Hr2.
    by apply Hfwd.
Qed.


Lemma layout_slots_unique bo s :
  In s (layout bo) -> slot_of bo (s_field s) = Some s.
Proof.
  revert s.
  assert (forallb (fun s => bool_decide (slot_of bo (s_field s) = Some s))
            (layout bo) = true) as H
    by (destruct bo; vm_compute; reflexivity).
  rewrite forallb_forall in H. intros s Hin.
  specialize (H s Hin). by apply bool_decide_eq_true in H.
Qed.

Lemma layout_covers bo u m :
  0 <= u < 3 -> 0 <= m < 32 ->
  exists s, In s (layout bo) /\ covers bo s u m = true.
Proof.
  intros Hu Hm.
  assert (forallb (fun u' =>
            forallb (fun m' => existsb (fun s => covers bo s u' m') (layout bo))
              (map Z.of_nat (seq 0 32)))
            (map Z.of_nat (seq 0 3)) = true) as H
    by (destruct bo; vm_compute; reflexivity).
  rewrite forallb_forall in H.
  assert (In u (map Z.of_nat (seq 0 3))) as Hinu.
  { apply in_map_iff. exists (Z.to_nat u). split; [lia|]. apply in_seq. lia. }
  specialize (H u Hinu). rewrite forallb_forall in H.
  assert (In m (map Z.of_nat (seq 0 32))) as Hinm.
  { apply in_map_iff. exists (Z.to_nat m). split; [lia|]. apply in_seq. lia. }
  specialize (H m Hinm). apply existsb_exists in H. exact H.
Qed.

Lemma nth_byte_range (mem : list Z) i :
  Forall (fun b => 0 <= b < 256) mem -> 0 <= nth i mem 0 < 256.
Proof.
  intros H. destruct (nth_in_or_default i mem 0) as [Hin | ->]; [|lia].
  rewrite Forall_forall in H. by apply H, list_elem_of_In.
Qed.

Lemma unit_of_bytes_range bo b0 b1 b2 b3 :
  0 <= b0 < 256 -> 0 <= b1 < 256 -> 0 <= b2 < 256 -> 0 <= b3 < 256 ->
  0 <= unit_of_bytes bo b0 b1 b2 b3 < 2 ^ 32.
Proof.
  intros. unfold unit_of_bytes.
  change (2 ^ 8) with 256; change (2 ^ 16) with 65536;
    change (2 ^ 24) with 16777216; change (2 ^ 32) with 4294967296.
  destruct bo; lia.
Qed.

Lemma unit_byte_unit_of_bytes bo b0 b1 b2 b3 :
  0 <= b0 < 256 -> 0 <= b1 < 256 -> 0 <= b2 < 256 -> 0 <= b3 < 256 ->
  unit_byte bo (unit_of_bytes bo b0 b1 b2 b3) 0 = b0 /\
  unit_byte bo (unit_of_bytes bo b0 b1 b2 b3) 1 = b1 /\
  unit_byte bo (unit_of_bytes bo b0 b1 b2 b3) 2 = b2 /\
  unit_byte bo (unit_of_bytes bo b0 b1 b2 b3) 3 = b3.
Proof.
  intros. unfold unit_of_bytes, unit_byte. change 255 with (Z.ones 8).
  destruct bo; rewrite !Z.land_ones, !Z.shiftr_div_pow2 by lia;
    cbn [Z.mul Z.sub Z.opp Z.add Pos.mul Pos.add Z.pos_sub Pos.succ
         Pos.pred_double];
    change (2 ^ 0) with 1; change (2 ^ 8) with 256;
    change (2 ^ 16) with 65536; change (2 ^ 24) with 16777216;
    repeat split; zdm.
Qed.

Lemma unit_value_load_header bo mem u :
  0 <= u < 3 ->
  Forall (fun b => 0 <= b < 256) mem ->
  unit_value bo (load_header bo mem) u = load_unit bo mem u.
Proof.
  intros Hu Hmem.
  assert (0 <= load_unit bo mem u < 2 ^ 32) as Hrange
    by (apply unit_of_bytes_range; by apply nth_byte_range).
  apply Z.bits_inj'. intros m Hm.
  unfold unit_value.
  rewrite unit_fold_testbit by (lia || apply layout_nonneg).
  destruct (Z.ltb_spec m 32) as [Hlt | Hge].
  - destruct (layout_covers bo u m Hu ltac:(lia)) as (s & Hin & Hcov).
    pose proof (layout_slots_unique bo s Hin) as Hs.
    destruct (slot_of_fits bo _ s Hs) as (_ & Hpos & Hfit & _ & Hw).
    destruct (slot_of_apart bo _ s Hs) as [_ Hapart].
    unfold covers in Hcov.
    rewrite !andb_true_iff, Z.eqb_eq, Z.leb_le, Z.ltb_lt in Hcov.
    destruct Hcov as [[Hsu Hlo] Hhi]. subst u.
    pose proof (covered_once bo (load_header bo mem) (layout bo) s
                  (m - lsb_pos bo s) Hin Hapart ltac:(lia)) as Hco.
    replace (m - lsb_pos bo s + lsb_pos bo s) with m in Hco by lia.
    rewrite Hco.
    rewrite get_load_header. unfold load_member. rewrite Hs.
    rewrite Z.land_spec, Z.shiftr_spec, Z.testbit_ones by lia.
    replace (m - lsb_pos bo s + lsb_pos bo s) with m by lia.
    replace (0 <=? m - lsb_pos bo s) with true by (symmetry; apply Z.leb_le; lia).
    replace (m - lsb_pos bo s <? width (s_field s)) with true
      by (symmetry; apply Z.ltb_lt; lia).
    by rewrite andb_true_r.
  - transitivity false.
    + apply not_true_is_false. rewrite existsb_exists.
      intros (s & Hin & Hc). apply andb_true_iff in Hc as [Hcov _].
      pose proof (layout_slots_unique bo s Hin) as Hs.
      destruct (slot_of_fits bo _ s Hs) as (_ & _ & Hfit & _).
      unfold covers in Hcov.
      rewrite !andb_true_iff, Z.leb_le, Z.ltb_lt in Hcov. lia.
    + symmetry.
      rewrite <- (Z.mod_small (load_unit bo mem u) (2 ^ 32)) by exact Hrange.
      apply Z.mod_pow2_bits_high. lia.
Qed.

(** X5: the members fill the twelve bytes with no bit left over: reading
    a header from twelve bytes and writing it back gives those bytes. *)
Theorem header_bytes_load_header (bo : byte_order) (mem : list Z) :
  length mem = 12%nat ->
  Forall (fun b => 0 <= b < 256) mem ->
  header_bytes bo (load_header bo mem) = mem.
Proof.
  intros Hlen Hmem.
  apply (nth_ext _ _ 0 0); [by rewrite header_bytes_length|].
  rewrite header_bytes_length. intros i Hi.
  rewrite nth_header_bytes by exact Hi.
  replace (Z.of_nat i) with (4 * (Z.of_nat i / 4) + Z.of_nat i mod 4) by zdm.
  rewrite header_byte_at by zdm.
  rewrite unit_value_load_header by (zdm || exact Hmem).
  unfold load_unit. cbv zeta.
  set (j := Z.to_nat (4 * (Z.of_nat i / 4))).
  destruct (unit_byte_unit_of_bytes bo (nth j mem 0) (nth (j + 1) mem 0)
              (nth (j + 2) mem 0) (nth (j + 3) mem 0))
    as (B0 & B1 & B2 & B3); try by apply nth_byte_range.
  assert (Z.of_nat i mod 4 = 0 \/ Z.of_nat i mod 4 = 1 \/
          Z.of_nat i mod 4 = 2 \/ Z.of_nat i mod 4 = 3) as Hk by zdm.
  destruct Hk as [Hk | [Hk | [Hk | Hk]]]; rewrite Hk;
    [rewrite B0 | rewrite B1 | rewrite B2 | rewrite B3];
    f_equal; subst j; zdm.
Qed.

End HeaderRoundTrip.

Lemma load_header_header_bytes_witness :
  HeaderLoad.load_header Header.LITTLE_ENDIAN
    (Header.header_bytes Header.LITTLE_ENDIAN HeaderLoad.sample_header)
  = HeaderLoad.sample_header.
Proof.
  apply load_header_header_bytes.
  intros f; destruct f; cbn; lia.
Defined.

Lemma header_bytes_load_header_witness :
  Header.header_bytes Header.BIG_ENDIAN
    (HeaderLoad.load_header Header.BIG_ENDIAN
       [0xBE; 0xEF; 0x81; 0x83; 0; 1; 0; 0; 0; 0; 0; 0])
  = [0xBE; 0xEF; 0x81; 0x83; 0; 1; 0; 0; 0; 0; 0; 0].
Proof.
  apply header_bytes_load_header; [reflexivity|].
  repeat constructor; lia.
Defined.

Lemma header_bytes_determine_members_witness :
  HeaderLoad.load_header Header.BIG_ENDIAN
    (Header.header_bytes Header.BIG_ENDIAN HeaderLoad.sample_header)
  = HeaderLoad.sample_header.
Proof.
  assert (HeaderLoad.in_range HeaderLoad.sample_header) as Hr
    by (intros f; destruct f; cbn; lia).
  assert (HeaderLoad.in_range
            (HeaderLoad.load_header Header.BIG_ENDIAN
               (Header.header_bytes Header.BIG_ENDIAN HeaderLoad.sample_header)))
    as Hr' by (intros f; destruct f; vm_compute; split; congruence).
  apply (proj2 (header_bytes_determine_members Header.BIG_ENDIAN _ _) Hr' Hr).
  vm_compute. reflexivity.
Defined.

(** ** Host byte order *)

Section HostOrder.
Import Header.

Lemma high_byte_bits v :
  byte_bits (v / 256 mod 256)
  = map (Z.testbit v) [15; 14; 13; 12; 11; 10; 9; 8].
Proof.
  unfold byte_bits. cbn [map]. change 256 with (2 ^ 8).
  rewrite !Z.mod_pow2_bits_low, !Z.div_pow2_bits by lia. reflexivity.
Qed.

Lemma low_byte_bits v :
  byte_bits (v mod 256) = map (Z.testbit v) [7; 6; 5; 4; 3; 2; 1; 0].
Proof.
  unfold byte_bits. cbn [map]. change 256 with (2 ^ 8).
  rewrite !Z.mod_pow2_bits_low by lia. reflexivity.
Qed.

Lemma byte_bits_length b : length (byte_bits b) = 8%nat.
Proof. reflexivity. Qed.

Lemma u16_member_bytes bo a b v :
  0 <= a < 256 -> 0 <= b < 256 ->
  byte_bits a ++ byte_bits b = u16_bits bo v ->
  (a, b) = match bo with
           | BIG_ENDIAN => (v / 256 mod 256, v mod 256)
           | LITTLE_ENDIAN => (v mod 256, v / 256 mod 256)
           end.
Proof.
  intros Ha Hb Hbits.
  assert (forall x, 0 <= x mod 256 < 256) as Hmod
    by (intros x; apply Z.mod_pos_bound; lia).
  destruct bo;
    [ change (u16_bits BIG_ENDIAN v)
        with (map (Z.testbit v) [15; 14; 13; 12; 11; 10; 9; 8]
              ++ map (Z.testbit v) [7; 6; 5; 4; 3; 2; 1; 0]) in Hbits
    | change (u16_bits LITTLE_ENDIAN v)
        with (map (Z.testbit v) [7; 6; 5; 4; 3; 2; 1; 0]
              ++ map (Z.testbit v) [15; 14; 13; 12; 11; 10; 9; 8]) in Hbits ];
    apply app_inj_1 in Hbits as [H1 H2]; try reflexivity;
    f_equal; apply byte_bits_inj; auto;
    rewrite ?high_byte_bits, ?low_byte_bits; assumption.
Qed.

(** X11: the two flag bytes are the same bytes on a big-endian and a
    little-endian host, while the 16-bit members lie in host order: high
    byte first on a big-endian host, low byte first on a little-endian
    one, where the struct leaves them as the host stores them. *)
Theorem header_bytes_by_host (bo : byte_order) (h : dns_header) :
  header_byte bo h 2 = header_byte BIG_ENDIAN h 2 /\
  header_byte bo h 3 = header_byte BIG_ENDIAN h 3 /\
  let pair (i : Z) (v : Z) :=
    (header_byte bo h i, header_byte bo h (i + 1))
    = match bo with
      | BIG_ENDIAN => (v / 256 mod 256, v mod 256)
      | LITTLE_ENDIAN => (v mod 256, v / 256 mod 256)
      end in
  pair 0 (qid h) /\ pair 4 (qdcount h) /\ pair 6 (ancount h) /\
  pair 8 (nscount h) /\ pair 10 (arcount h).
Proof.
  split; [apply byte_bits_inj; auto using header_byte_range;
          by rewrite !flags1_bits|].
  split; [apply byte_bits_inj; auto using header_byte_range;
          by rewrite !flags2_bits|].
  cbv zeta.
  repeat split; apply u16_member_bytes;
    auto using header_byte_range, qid_bytes, qdcount_bytes, ancount_bytes,
      nscount_bytes, arcount_bytes.
Qed.

End HostOrder.

(** ** Flags, sections, opcodes and tables *)

Section FlagsAndTables.
Import Header HeaderLoad DnsEnums TypeNames ChannelFlags.
Import Rcode DnsType Resolver.

Lemma test_pow2 (f k : Z) :
  0 <= k -> negb (Z.land f (2 ^ k) =? 0) = Z.testbit f k.
Proof.
  intros Hk.
  assert (Z.land f (2 ^ k) = if Z.testbit f k then 2 ^ k else 0) as ->.
  { apply Z.bits_inj'. intros n Hn.
    rewrite Z.land_spec, Z.pow2_bits_eqb by lia.
    destruct (Z.eqb_spec k n) as [<- | Hne].
    - destruct (Z.testbit f k) eqn:Hb; cbn.
      + symmetry. apply Z.pow2_bits_true. lia.
      + symmetry. apply Z.bits_0.
    - rewrite andb_false_r. destruct (Z.testbit f k).
      + symmetry. apply Z.pow2_bits_false. congruence.
      + symmetry. apply Z.bits_0. }
  destruct (Z.testbit f k); [|reflexivity].
  assert (0 < 2 ^ k) by (apply Z.pow_pos_nonneg; lia).
  destruct (Z.eqb_spec (2 ^ k) 0); [lia | reflexivity].
Qed.

Lemma flag_value_pow2 fl : flag_value fl = 2 ^ flag_bit fl.
Proof. by destruct fl. Qed.

Lemma test_flag_testbit ioc fl :
  test_flag ioc fl = Z.testbit (flags ioc) (flag_bit fl).
Proof.
  unfold test_flag. rewrite flag_value_pow2.
  apply test_pow2. destruct fl; cbn; lia.
Qed.

Lemma flag_bit_inj a b : flag_bit a = flag_bit b -> a = b.
Proof. destruct a, b; cbn; intros; congruence || lia. Qed.

(** X7: the [IS_CHANNEL_*] macros each read one bit of [flags]: raising
    a flag makes its test true, dropping it makes the test false, and
    neither changes the test of any other flag. *)
Theorem channel_flags_independent (ioc : rdns_io_channel) (a b : channel_flag) :
  (IS_CHANNEL_CONNECTED ioc = test_flag ioc CONNECTED /\
   IS_CHANNEL_ACTIVE ioc = test_flag ioc ACTIVE /\
   IS_CHANNEL_TCP ioc = test_flag ioc TCP) /\
  test_flag ioc b = Z.testbit (flags ioc) (flag_bit b) /\
  test_flag (raise_flag ioc a) b
    = (if decide (a = b) then true else test_flag ioc b) /\
  test_flag (drop_flag ioc a) b
    = (if decide (a = b) then false else test_flag ioc b).
Proof.
  split; [by repeat split|].
  split; [apply test_flag_testbit|].
  assert (0 <= flag_bit a /\ 0 <= flag_bit b) as [Ha Hb]
    by (destruct a, b; cbn; lia).
  rewrite !test_flag_testbit. cbn [raise_flag drop_flag flags].
  rewrite Z.lor_spec, Z.land_spec, Z.lnot_spec, flag_value_pow2 by lia.
  rewrite Z.pow2_bits_eqb by lia.
  destruct (decide (a = b)) as [-> | Hne].
  - rewrite Z.eqb_refl. cbn. by rewrite orb_true_r, andb_false_r.
  - destruct (Z.eqb_spec (flag_bit a) (flag_bit b)) as [He | _].
    + by apply flag_bit_inj in He.
    + cbn. by rewrite orb_false_r, andb_true_r.
Qed.

Lemma section_value_pow2 s : section_value s = 2 ^ section_bit s.
Proof. by destruct s. Qed.

Lemma has_section_testbit mask s :
  has_section mask s = Z.testbit mask (section_bit s).
Proof.
  unfold has_section. rewrite section_value_pow2.
  apply test_pow2. destruct s; cbn; lia.
Qed.

Lemma section_mask_testbit l n :
  0 <= n ->
  Z.testbit (section_mask l) n
  = existsb (fun s => section_bit s =? n) l.
Proof.
  intros Hn. induction l as [|a l IH]; cbn [section_mask fold_right existsb].
  - apply Z.bits_0.
  - fold (section_mask l). rewrite Z.lor_spec, IH, section_value_pow2.
    rewrite Z.pow2_bits_eqb by (destruct a; cbn; lia). reflexivity.
Qed.

(** X8: the section enumerators are four different bits and [DNS_S_ALL]
    is all of them: a mask built from any list of sections tests true
    for exactly the sections of the list, lies within [DNS_S_ALL], and
    the mask of all four is [DNS_S_ALL]. *)
Theorem section_masks (l : list dns_section) (s : dns_section) :
  (has_section (section_mask l) s = true <-> In s l) /\
  Z.land (section_mask l) DNS_S_ALL = section_mask l /\
  0 <= section_mask l <= DNS_S_ALL /\
  section_mask [DNS_S_QD; DNS_S_AN; DNS_S_NS; DNS_S_AR] = DNS_S_ALL /\
  has_section DNS_S_ALL s = true.
Proof.
  assert (Z.land (section_mask l) DNS_S_ALL = section_mask l) as Hland.
  { apply Z.bits_inj'. intros n Hn.
    rewrite Z.land_spec. change DNS_S_ALL with (Z.ones 4).
    rewrite Z.testbit_ones, section_mask_testbit by lia.
    destruct (existsb _ l) eqn:He; [|reflexivity].
    apply existsb_exists in He as (s0 & _ & Hs0%Z.eqb_eq).
    replace (0 <=? n) with true by (symmetry; apply Z.leb_le; lia).
    replace (n <? 4) with true
      by (symmetry; apply Z.ltb_lt; destruct s0; cbn in Hs0; lia).
    reflexivity. }
  split.
  { rewrite has_section_testbit, section_mask_testbit
      by (destruct s; cbn; lia).
    rewrite existsb_exists.
    split.
    - intros (s0 & Hin & He%Z.eqb_eq).
      by replace s with s0 by (destruct s0, s; cbn in He; congruence || lia).
    - intros Hin. exists s. split; [exact Hin | apply Z.eqb_refl]. }
  split; [exact Hland|].
  split.
  { assert (section_mask l = section_mask l mod 16) as Hmod.
    { rewrite <- Hland at 1. change DNS_S_ALL with (Z.ones 4).
      by rewrite Z.land_ones by lia. }
    pose proof (Z.mod_pos_bound (section_mask l) 16).
    unfold DNS_S_ALL. lia. }
  split; [reflexivity | by destruct s].
Qed.

Lemma opcode_value_range o : 0 <= opcode_value o < 2 ^ width F_opcode.
Proof. destruct o; cbn; lia. Qed.

(** X6: every [dns_opcode] fits the 4-bit [opcode] member: assigned to a
    header and read back from its bytes it is the same enumerator, on
    either byte order; the numbers 0..15 that are no opcode are 3 and
    6..15. *)
Theorem opcode_fits_header (bo : byte_order) (h : dns_header) (o : dns_opcode) :
  load_member bo (header_bytes bo (set_member h F_opcode (opcode_value o)))
    F_opcode = opcode_value o /\
  opcode_of_value
    (load_member bo (header_bytes bo (set_member h F_opcode (opcode_value o)))
       F_opcode) = Some o /\
  (forall v, opcode_of_value v = Some o <-> v = opcode_value o) /\
  (forall v, 0 <= v < 16 ->
     (opcode_of_value v = None <-> v = 3 \/ 6 <= v)).
Proof.
  assert (load_member bo
            (header_bytes bo (set_member h F_opcode (opcode_value o))) F_opcode
          = opcode_value o) as Hload.
  { rewrite member_round_trip, get_set_member.
    rewrite decide_True by reflexivity.
    apply Z.mod_small, opcode_value_range. }
  split; [exact Hload|]. rewrite Hload.
  split; [by destruct o|].
  split.
  - intros v. split; [|intros ->; by destruct o].
    destruct v as [|p|p]; cbn; try discriminate.
    + intros [= <-]; reflexivity.
    + repeat (match goal with q : positive |- _ => destruct q end;
              cbn; try discriminate);
        intros [= <-]; reflexivity.
  - intros v Hv.
    assert (v = 0 \/ v = 1 \/ v = 2 \/ v = 3 \/ v = 4 \/ v = 5 \/ 6 <= v < 16)
      as Hc by lia.
    destruct Hc as [-> | [-> | [-> | [-> | [-> | [-> | Hc]]]]]];
      cbn; try (split; [discriminate | lia]); try (split; [tauto | reflexivity]).
    split; [lia|]. intros _.
    destruct v as [|p|p]; try lia.
    repeat (match goal with q : positive |- _ => destruct q end;
            cbn; try reflexivity; try lia).
Qed.

Lemma byte_cases (P : Z -> bool) :
  forallb P (map Z.of_nat (seq 0 256)) = true ->
  forall b, P (b mod 256) = true.
Proof.
  intros H b. rewrite forallb_forall in H. apply H.
  apply in_map_iff. exists (Z.to_nat (b mod 256)).
  pose proof (Z.mod_pos_bound b 256 ltac:(lia)).
  split; [lia|]. apply in_seq. lia.
Qed.

Lemma land_byte_mask b m :
  0 <= m < 256 -> Z.land b m = Z.land (b mod 256) m.
Proof.
  intros Hm. apply Z.bits_inj'. intros n Hn.
  rewrite !Z.land_spec. change 256 with (2 ^ 8).
  destruct (Z.ltb_spec n 8) as [Hlt | Hge].
  - by rewrite Z.mod_pow2_bits_low by lia.
  - replace (Z.testbit m n) with false; [by rewrite !andb_false_r|].
    symmetry. rewrite <- (Z.mod_small m (2 ^ 8)) by (change (2 ^ 8) with 256; lia).
    apply Z.mod_pow2_bits_high. lia.
Qed.

(** X9: a length byte never looks like a compression pointer: a byte has
    both [DNS_COMPRESSION_BITS] clear exactly when it is at most
    [DNS_D_MAXLABEL], and both set exactly when it is 192 or more; the
    length of a label within the limit has them clear. *)
Theorem compression_bits_and_label_length (b : Z) :
  (Z.land b Limits.DNS_COMPRESSION_BITS = 0
   <-> b mod 256 <= Limits.DNS_D_MAXLABEL) /\
  (Z.land b Limits.DNS_COMPRESSION_BITS = Limits.DNS_COMPRESSION_BITS
   <-> 192 <= b mod 256) /\
  (Limits.label_ok b = true -> Z.land b Limits.DNS_COMPRESSION_BITS = 0).
Proof.
  unfold Limits.DNS_COMPRESSION_BITS, Limits.DNS_D_MAXLABEL.
  rewrite (land_byte_mask b 192) by lia.
  pose proof (byte_cases
    (fun x => Bool.eqb (Z.land x 192 =? 0) (x <=? 63)
              && Bool.eqb (Z.land x 192 =? 192) (192 <=? x))
    ltac:(vm_compute; reflexivity) b) as H.
  cbv beta in H. apply andb_true_iff in H as [H1 H2].
  apply Bool.eqb_prop in H1, H2.
  split; [|split].
  - rewrite <- Z.eqb_eq, H1. apply Z.leb_le.
  - rewrite <- Z.eqb_eq, H2. apply Z.leb_le.
  - unfold Limits.label_ok, Limits.DNS_D_MAXLABEL.
    rewrite andb_true_iff, !Z.leb_le. intros [H0 H63].
    apply Z.eqb_eq. rewrite H1. apply Z.leb_le.
    rewrite Z.mod_small by lia. lia.
Qed.

(** X10: the [dns_types] table has a text for every request type the
    header uses except [RDNS_REQUEST_SOA]; every text fits its 16-byte
    row with the terminating byte, and no two types share a text. *)
Theorem dns_types_cover_all_but_soa :
  (forall t, dns_types t = None <-> t = RDNS_REQUEST_SOA) /\
  (forall t s, dns_types t = Some s ->
     (0 < String.length s < 16)%nat) /\
  (forall t1 t2 s, dns_types t1 = Some s -> dns_types t2 = Some s -> t1 = t2) /\
  is_alias (wire_type RDNS_REQUEST_SOA) = true.
Proof.
  split; [intros []; cbn; split; congruence|].
  split; [intros [] s [= <-]; cbn; lia|].
  split; [|reflexivity].
  intros [] [] s H1 H2; try reflexivity; try discriminate;
    cbn in H1, H2; congruence.
Qed.

End FlagsAndTables.
